(** * HTTP Digest authentication (digest.go): nonce cache and response verifier

    A shallow embedding of [digest.go] of go-http-auth: the nonce client
    cache ([DigestAuth.clients]), its eviction ([Purge]), the challenge
    issuer ([RequireAuth]) and the response verifier ([CheckAuth]).

    Conventions.
    - Go's [int], [int64] and [uint64] are [Z]; the wrap-around of [int]
      arithmetic is written out with [int_wrap].
    - Go's [map[string]T] is [gmap string T]; a possibly-nil map is an
      [option].  Reading an absent key of a [map[string]string] yields the
      empty string ([param]).
    - The functions of [DigestAuth] run in the monad [M]: they thread the
      authenticator, may panic, and log every operation on [da.mutex] and
      every access to [da.clients] in a trace.
    - [time.Now().UnixNano()] and [RandomKey()] are inputs of the functions
      that call them.
    - [JustCheck], [NewContext] and the constructor are not part of the
      embedding. *)

From Stdlib Require Import ZArith String Ascii List Lia.
From stdpp Require Import base option list sorting gmap strings fin_maps.

Local Open Scope string_scope.
Local Open Scope list_scope.
Local Open Scope Z_scope.

(** ** Go library functions used by digest.go *)

(** Go's [int] on a 64-bit platform: results of [+] and [*] wrap around. *)
Definition int_wrap (z : Z) : Z := (z + 2 ^ 63) mod 2 ^ 64 - 2 ^ 63.

(** [len(s)] of a string, in bytes. *)
Definition len (s : string) : Z := Z.of_nat (String.length s).

(** The double quote character, and a string in double quotes. *)
Definition dquote : string := String "034"%char EmptyString.
Definition quoted (s : string) : string := dquote +:+ s +:+ dquote.

(** [strings.Join(elems, sep)]. *)
Definition strings_Join (elems : list string) (sep : string) : string :=
  String.concat sep elems.

(** [strings.HasPrefix(s, prefix)]. *)
Definition strings_HasPrefix (s pre : string) : bool := String.prefix pre s.

(** [subtle.ConstantTimeCompare(x, y) == 1]: the byte strings have the same
    length and the same contents. *)
Definition ConstantTimeCompare (x y : string) : bool := bool_decide (x = y).

(** The part of [s] before and after its first space, if it has one. *)
Fixpoint cut_space (s : string) : option (string * string) :=
  match s with
  | EmptyString => None
  | String c s' =>
      if Ascii.eqb c " "%char then Some (EmptyString, s')
      else match cut_space s' with
           | Some (a, b) => Some (String c a, b)
           | None => None
           end
  end.

(** [strings.SplitN(s, " ", 2)]. *)
Definition strings_SplitN2 (s : string) : list string :=
  match cut_space s with
  | Some (a, b) => [a; b]
  | None => [s]
  end.

(** The value of a byte as a digit, as in [strconv.ParseUint]:
    ['0'..'9'] are 0..9 and, with [lower(c) = c | 0x20], letters are
    10..35.  Other bytes are syntax errors. *)
Definition digit_val (c : ascii) : option Z :=
  let b := Z.of_nat (nat_of_ascii c) in
  let l := Z.lor b 32 in
  if (48 <=? b) && (b <=? 57) then Some (b - 48)
  else if (97 <=? l) && (l <=? 122) then Some (l - 97 + 10)
  else None.

(** The loop of [strconv.ParseUint(s, 16, 64)] over the bytes of [s],
    [n] being the value read so far; [None] is a syntax or range error. *)
Fixpoint ParseUint16_loop (s : string) (n : Z) : option Z :=
  match s with
  | EmptyString => Some n
  | String c s' =>
      match digit_val c with
      | None => None
      | Some d =>
          if 16 <=? d then None
          else if 2 ^ 60 <=? n then None          (* n >= cutoff: n*16 overflows *)
          else
            let n16 := (n * 16) mod 2 ^ 64 in
            let n1 := (n16 + d) mod 2 ^ 64 in
            if (n1 <? n16) || (2 ^ 64 - 1 <? n1) then None
            else ParseUint16_loop s' n1
      end
  end.

(** [strconv.ParseUint(s, 16, 64)]; [None] when [err != nil]. *)
Definition ParseUint16 (s : string) : option Z :=
  match s with
  | EmptyString => None
  | _ => ParseUint16_loop s 0
  end.

(** ** Data model *)

(** [url.URL], of which only [Path] is read. *)
Record url_URL := { Path : string }.

(** [http.Request], with the fields [CheckAuth] reads.  [Header_Get name]
    is [r.Header.Get(name)]; [URL] may be nil. *)
Record Request := {
  Method : string;
  RequestURI : string;
  URL : option url_URL;
  Header_Get : string → string
}.

(** The header names and the unauthorized response, [da.Headers.V()]. *)
Record Headers := {
  Authenticate : string;
  Authorization : string;
  AuthInfo : string;
  UnauthCode : Z;
  UnauthContentType : string;
  UnauthResponse : string
}.

Record digest_client := {
  nc : Z;          (* uint64 *)
  last_seen : Z    (* int64 *)
}.

Record digest_cache_entry := {
  e_nonce : string;
  e_last_seen : Z
}.

Abbreviation digest_cache := (list digest_cache_entry).

(** [digest_cache_entry{nonce, client.last_seen}]. *)
Definition to_entry (kv : string * digest_client) : digest_cache_entry :=
  {| e_nonce := kv.1; e_last_seen := last_seen kv.2 |}.

(** [digest_cache.Less], on two entries. *)
Definition Less (a b : digest_cache_entry) : bool := e_last_seen a <? e_last_seen b.

(** [sort.Sort] leaves a slice in which no later element is [Less] than an
    earlier one. *)
Definition sorted_by_last_seen (c : digest_cache) : Prop :=
  Sorted (λ a b, Less b a = false) c.

Record DigestAuth := {
  Algorithm : string;
  Realm : string;
  Opaque : string;
  Secrets : string → string → string;
  PlainTextSecrets : bool;
  IgnoreNonceCount : bool;
  HeadersV : Headers;                 (* da.Headers.V() *)
  ClientCacheSize : Z;
  ClientCacheTolerance : Z;
  clients : gmap string digest_client
}.

Definition set_clients (da : DigestAuth) (c : gmap string digest_client) : DigestAuth :=
  {| Algorithm := Algorithm da; Realm := Realm da; Opaque := Opaque da;
     Secrets := Secrets da; PlainTextSecrets := PlainTextSecrets da;
     IgnoreNonceCount := IgnoreNonceCount da; HeadersV := HeadersV da;
     ClientCacheSize := ClientCacheSize da;
     ClientCacheTolerance := ClientCacheTolerance da;
     clients := c |}.

(** What [RequireAuth] writes to the [http.ResponseWriter]. *)
Record Response := {
  resp_content_type : string;
  resp_authenticate : string * string;   (* header name, header value *)
  resp_code : Z;
  resp_body : string
}.

(** ** What digest.go takes from the rest of the package and from Go

    [algorithms] (the hash registry) and [ParsePairs] belong to other files
    of the package; [strings.ToUpper], [url.Parse] and [sort.Sort] are Go's;
    [range_clients] is the order in which [range] visits a map. *)
Class Externals := {
  algorithms : gmap string (string → string);
  ParsePairs : string → option (gmap string string);
  strings_ToUpper : string → string;
  url_Parse : string → option url_URL;
  range_clients : gmap string digest_client → list (string * digest_client);
  sort_Sort : digest_cache → digest_cache
}.

(** The contracts of [range] over a map and of [sort.Sort]. *)
Record GoContracts (E : Externals) : Prop := {
  range_clients_perm : ∀ m, range_clients m ≡ₚ map_to_list m;
  sort_Sort_perm : ∀ c, sort_Sort c ≡ₚ c;
  sort_Sort_sorted : ∀ c, sorted_by_last_seen (sort_Sort c)
}.

(** ** The monad of the methods of [DigestAuth] *)

Inductive event :=
| EvLock | EvUnlock | EvRLock | EvRUnlock     (* da.mutex *)
| EvLen                                       (* len(da.clients) *)
| EvRange                                     (* range da.clients *)
| EvLookup (nonce : string)                   (* da.clients[nonce] *)
| EvInsert (nonce : string)                   (* da.clients[nonce] = ... *)
| EvUpdate (nonce : string)                   (* client.field = ... *)
| EvDelete (nonce : string).                  (* delete(da.clients, nonce) *)

Inductive Result (A : Type) :=
| Return (a : A)
| Panic (msg : string).
Arguments Return {A} a.
Arguments Panic {A} msg.

Record Run (A : Type) := mkRun {
  result : Result A;
  final : DigestAuth;
  trace : list event
}.
Arguments mkRun {A} _ _ _.
Arguments result {A} _.
Arguments final {A} _.
Arguments trace {A} _.

Definition M (A : Type) : Type := DigestAuth → Run A.

Definition ret {A} (a : A) : M A := λ da, mkRun (Return a) da [].

Definition bind {A B} (m : M A) (f : A → M B) : M B := λ da,
  let r := m da in
  match result r with
  | Return a =>
      let r' := f a (final r) in
      mkRun (result r') (final r') (trace r ++ trace r')
  | Panic msg => mkRun (Panic msg) (final r) (trace r)
  end.

Notation "x <- m ;; k" := (bind m (λ x, k))
  (at level 100, m at next level, right associativity, only parsing).
Notation "m ;;; k" := (bind m (λ _, k))
  (at level 100, right associativity, only parsing).

(** A run that comes after the events [tr]. *)
Definition prepend {A} (tr : list event) (r : Run A) : Run A :=
  mkRun (result r) (final r) (tr ++ trace r).

Definition panic {A} (msg : string) : M A := λ da, mkRun (Panic msg) da [].
Definition emit (e : event) : M unit := λ da, mkRun (Return tt) da [e].
Definition get_da : M DigestAuth := λ da, mkRun (Return da) da [].
Definition put_clients (c : gmap string digest_client) : M unit := λ da,
  mkRun (Return tt) (set_clients da c) [].

(** [defer d] at the head of a function whose body is [body]: [d] runs when
    the body returns, and also when it panics. *)
Definition defer {A} (d : M unit) (body : M A) : M A := λ da,
  let r := body da in
  let r' := d (final r) in
  mkRun (result r) (final r') (trace r ++ trace r').

Definition mutex_Lock : M unit := emit EvLock.
Definition mutex_Unlock : M unit := emit EvUnlock.
Definition mutex_RLock : M unit := emit EvRLock.
Definition mutex_RUnlock : M unit := emit EvRUnlock.

(** [len(da.clients)]. *)
Definition clients_len : M Z :=
  emit EvLen ;;; da <- get_da ;; ret (Z.of_nat (size (clients da))).

(** [client, ok := da.clients[nonce]]. *)
Definition clients_lookup (nonce : string) : M (option digest_client) :=
  emit (EvLookup nonce) ;;; da <- get_da ;; ret (clients da !! nonce).

(** [da.clients[nonce] = &digest_client{...}]. *)
Definition clients_insert (nonce : string) (c : digest_client) : M unit :=
  emit (EvInsert nonce) ;;; da <- get_da ;; put_clients (<[nonce := c]> (clients da)).

(** [client.nc = n] and [client.last_seen = t], through the pointer stored
    under [nonce]. *)
Definition client_set_nc (nonce : string) (n : Z) : M unit :=
  emit (EvUpdate nonce) ;;; da <- get_da ;;
  put_clients (alter (λ c, {| nc := n; last_seen := last_seen c |}) nonce (clients da)).

Definition client_set_last_seen (nonce : string) (t : Z) : M unit :=
  emit (EvUpdate nonce) ;;; da <- get_da ;;
  put_clients (alter (λ c, {| nc := nc c; last_seen := t |}) nonce (clients da)).

(** [delete(da.clients, nonce)]. *)
Definition clients_delete (nonce : string) : M unit :=
  emit (EvDelete nonce) ;;; da <- get_da ;; put_clients (delete nonce (clients da)).

(** [for _, x := range l { body x }] over a slice. *)
Fixpoint for_each {A} (l : list A) (body : A → M unit) : M unit :=
  match l with
  | [] => ret tt
  | x :: l' => body x ;;; for_each l' body
  end.

(** [s[:count]] of a slice whose capacity is its length: a run-time panic
    unless [0 <= count <= cap(s)]. *)
Definition slice_to {A} (s : list A) (count : Z) : M (list A) :=
  if (count <? 0) || (Z.of_nat (length s) <? count)
  then panic "slice bounds out of range"
  else ret (take (Z.to_nat count) s).

(** ** digest.go *)

Section digest.
Context {E : Externals}.

(** [Purge]: remove the [count] oldest entries from [da.clients]. *)
Definition Purge (count : Z) : M unit :=
  mutex_Lock ;;;
  emit EvRange ;;;
  da <- get_da ;;
  let entries := to_entry <$> range_clients (clients da) in
  let cache := sort_Sort entries in
  oldest <- slice_to cache count ;;
  for_each oldest (λ client, clients_delete (e_nonce client)) ;;;
  mutex_Unlock.

(** The value of the challenge header. *)
Definition challenge (da : DigestAuth) (nonce : string) : string :=
  "Digest realm=" +:+ quoted (Realm da) +:+ ", nonce=" +:+ quoted nonce +:+
  ", opaque=" +:+ quoted (Opaque da) +:+ ", algorithm=" +:+ quoted (Algorithm da) +:+
  ", qop=" +:+ quoted "auth".

(** The response to an unauthenticated request, with a challenge for
    [nonce]. *)
Definition unauthorized (da : DigestAuth) (nonce : string) : Response :=
  {| resp_content_type := UnauthContentType (HeadersV da);
     resp_authenticate := (Authenticate (HeadersV da), challenge da nonce);
     resp_code := UnauthCode (HeadersV da);
     resp_body := UnauthResponse (HeadersV da) |}.

(** [RequireAuth], with [nonce] the result of [RandomKey()] and [now] that
    of [time.Now().UnixNano()]. *)
Definition RequireAuth (nonce : string) (now : Z) : M Response :=
  mutex_RLock ;;;
  n <- clients_len ;;
  da <- get_da ;;
  (if int_wrap (ClientCacheSize da + ClientCacheTolerance da) <? n
   then mutex_RUnlock ;;; Purge (int_wrap (ClientCacheTolerance da * 2))
   else mutex_RUnlock) ;;;
  mutex_Lock ;;;
  clients_insert nonce {| nc := 0; last_seen := now |} ;;;
  mutex_Unlock ;;;
  mutex_RLock ;;;
  let w := unauthorized da nonce in
  mutex_RUnlock ;;;
  ret w.

(** [DigestAuthParams]: the parameters of an Authorization header, or nil. *)
Definition DigestAuthParams (authorization : string) : option (gmap string string) :=
  match strings_SplitN2 authorization with
  | [s0; s1] => if bool_decide (s0 = "Digest") then ParsePairs s1 else None
  | _ => None
  end.

(** [auth[k]] of a [map[string]string]: the empty string when [k] is absent. *)
Definition param (auth : gmap string string) (k : string) : string :=
  default EmptyString (auth !! k).

(** [if _, ok := auth["algorithm"]; !ok { auth["algorithm"] = "MD5" }]. *)
Definition default_algorithm (auth : gmap string string) : gmap string string :=
  match auth !! "algorithm" with
  | Some _ => auth
  | None => <["algorithm" := "MD5"]> auth
  end.

(** The check that the requested URI matches the auth header: [true] when
    [CheckAuth] goes on, [false] when it returns. *)
Definition uri_matches (r : Request) (uri : string) : bool :=
  if bool_decide (RequestURI r ≠ uri) then
    match url_Parse uri with
    | None => false                                       (* err != nil *)
    | Some u =>
        match URL r with
        | None => false                                   (* r.URL == nil *)
        | Some ru =>
            if len (Path ru) <? len (Path u) then false
            else if negb (strings_HasPrefix (Path ru) (Path u)) then false
            else true
        end
    end
  else true.

Definition compute_HA1 (da : DigestAuth) (H : string → string)
    (auth : gmap string string) : string :=
  let HA1 := Secrets da (param auth "username") (Realm da) in
  if PlainTextSecrets da
  then H (param auth "username" +:+ ":" +:+ Realm da +:+ ":" +:+ HA1)
  else HA1.

Definition compute_KD (H : string → string) (HA1 : string) (r : Request)
    (auth : gmap string string) : string :=
  let HA2 := H (Method r +:+ ":" +:+ param auth "uri") in
  H (strings_Join [HA1; param auth "nonce"; param auth "nc"; param auth "cnonce";
                   param auth "qop"; HA2] ":").

Definition compute_rspauth (H : string → string) (HA1 : string)
    (auth : gmap string string) : string :=
  let resp_HA2 := H (":" +:+ param auth "uri") in
  H (strings_Join [HA1; param auth "nonce"; param auth "nc"; param auth "cnonce";
                   param auth "qop"; resp_HA2] ":").

Definition format_info (rspauth cnonce nc_ : string) : string :=
  "qop=" +:+ quoted "auth" +:+ ", rspauth=" +:+ quoted rspauth +:+
  ", cnonce=" +:+ quoted cnonce +:+ ", nc=" +:+ quoted nc_.

(** [return "", nil]. *)
Definition Rejected : string * option string := (EmptyString, None).

(** [CheckAuth], with [now] the result of [time.Now().UnixNano()].  The
    result is the pair of the username and of the authinfo pointer. *)
Definition CheckAuth (r : Request) (now : Z) : M (string * option string) :=
  mutex_RLock ;;;
  defer mutex_RUnlock (
    da <- get_da ;;
    match DigestAuthParams (Header_Get r (Authorization (HeadersV da))) with
    | None => ret Rejected
    | Some auth0 =>
    let auth := default_algorithm auth0 in
    if bool_decide (Opaque da ≠ param auth "opaque") || bool_decide (param auth "qop" ≠ "auth")
    then ret Rejected else
    match algorithms !! strings_ToUpper (param auth "algorithm") with
    | None => ret Rejected
    | Some H =>
    if negb (uri_matches r (param auth "uri")) then ret Rejected else
    let HA1 := compute_HA1 da H auth in
    let KD := compute_KD H HA1 r auth in
    if negb (ConstantTimeCompare KD (param auth "response")) then ret Rejected else
    match ParseUint16 (param auth "nc") with
    | None => ret Rejected
    | Some nc_ =>
    found <- clients_lookup (param auth "nonce") ;;
    match found with
    | None => ret Rejected
    | Some client =>
    if negb (nc client =? 0) && (nc_ <=? nc client) && negb (IgnoreNonceCount da)
    then ret Rejected else
    client_set_nc (param auth "nonce") nc_ ;;;
    client_set_last_seen (param auth "nonce") now ;;;
    let rspauth := compute_rspauth H HA1 auth in
    let info := format_info rspauth (param auth "cnonce") (param auth "nc") in
    ret (param auth "username", Some info)
    end end end end).

(** What the handler returned by [Wrap] does with a request. *)
Inductive Served :=
| Challenged (w : Response)                               (* da.RequireAuth(w, r) *)
| Wrapped (username : string) (authinfo : option string). (* wrapped(w, ar) *)

(** The handler returned by [Wrap]: an empty username from [CheckAuth]
    means that the request is not authenticated.  [now] is the time of the
    check, [nonce] and [now'] are those of the challenge. *)
Definition Wrap_handler (r : Request) (now : Z) (nonce : string) (now' : Z) : M Served :=
  out <- CheckAuth r now ;;
  if bool_decide (out.1 = EmptyString)
  then w <- RequireAuth nonce now' ;; ret (Challenged w)
  else ret (Wrapped out.1 out.2).

End digest.

(** ** The locking discipline of the nonce cache

    Which lock the running function holds, replayed over a trace. *)
Inductive lock_mode := Unlocked | Shared | Exclusive.

Definition is_write (e : event) : bool :=
  match e with
  | EvInsert _ | EvUpdate _ | EvDelete _ => true
  | _ => false
  end.

(** [disciplined held tr]: along [tr], started with the lock [held], every
    write to the cache is made under the exclusive lock, every read under
    some lock, and the lock operations are well paired. *)
Fixpoint disciplined (held : lock_mode) (tr : list event) : bool :=
  match tr with
  | [] => true
  | e :: tr' =>
      match e, held with
      | EvLock, Unlocked => disciplined Exclusive tr'
      | EvUnlock, Exclusive => disciplined Unlocked tr'
      | EvRLock, Unlocked => disciplined Shared tr'
      | EvRUnlock, Shared => disciplined Unlocked tr'
      | (EvLock | EvUnlock | EvRLock | EvRUnlock), _ => false
      | _, Exclusive => disciplined held tr'
      | _, Shared => negb (is_write e) && disciplined held tr'
      | _, Unlocked => false
      end
  end.

(** The writes of a trace made while only the shared lock is held. *)
Fixpoint writes_under_shared (held : lock_mode) (tr : list event) : list event :=
  match tr with
  | [] => []
  | e :: tr' =>
      match e with
      | EvLock => writes_under_shared Exclusive tr'
      | EvRLock => writes_under_shared Shared tr'
      | EvUnlock | EvRUnlock => writes_under_shared Unlocked tr'
      | _ =>
          match held with
          | Shared => if is_write e then e :: writes_under_shared held tr'
                      else writes_under_shared held tr'
          | _ => writes_under_shared held tr'
          end
      end
  end.

(** ** Vocabulary of the statements *)

Section vocabulary.
Context {E : Externals}.

(** The digest parameters [CheckAuth] works with: those of the request's
    Authorization header, with the algorithm defaulted. *)
Definition request_params (da : DigestAuth) (r : Request) : option (gmap string string) :=
  default_algorithm <$> DigestAuthParams (Header_Get r (Authorization (HeadersV da))).

(** The request passes every check of [CheckAuth] up to and including the
    comparison of the response: its parameters are [auth], its opaque is the
    configured one, its qop is ["auth"], its algorithm is registered as [H],
    its uri matches the request and its response is the expected digest. *)
Record well_formed (da : DigestAuth) (r : Request)
    (auth : gmap string string) (H : string → string) : Prop := {
  wf_params : request_params da r = Some auth;
  wf_opaque : param auth "opaque" = Opaque da;
  wf_qop : param auth "qop" = "auth";
  wf_algorithm : algorithms !! strings_ToUpper (param auth "algorithm") = Some H;
  wf_uri : uri_matches r (param auth "uri") = true;
  wf_response : param auth "response" = compute_KD H (compute_HA1 da H auth) r auth
}.

(** A well-formed response of [user] for [nonce] whose nc reads as [n]. *)
Definition valid_response (da : DigestAuth) (r : Request)
    (user nonce : string) (n : Z) : Prop :=
  ∃ auth H, well_formed da r auth H ∧ param auth "username" = user ∧
    param auth "nonce" = nonce ∧ ParseUint16 (param auth "nc") = Some n.

(** The run returned [user] together with an authinfo. *)
Definition accepts (run : Run (string * option string)) (user : string) : Prop :=
  ∃ info, result run = Return (user, Some info).

(** The run returned [return "", nil] and left the authenticator as it was. *)
Definition rejects (run : Run (string * option string)) (da : DigestAuth) : Prop :=
  result run = Return Rejected ∧ final run = da.


(** The counter stored for a nonce. *)
Definition stored_counter (da : DigestAuth) (nonce : string) : option Z :=
  nc <$> clients da !! nonce.

(** The same request checked again at each of the given times; the runs, in
    order. *)
Fixpoint CheckAuth_repeat (r : Request) (times : list Z) (da : DigestAuth)
    : list (Run (string * option string)) :=
  match times with
  | [] => []
  | t :: times' =>
      let run := CheckAuth r t da in
      run :: CheckAuth_repeat r times' (final run)
  end.

(** The slice [Purge] sorts: one entry per session, in the order of
    [range], then sorted. *)
Definition cache_entries (m : gmap string digest_client) : digest_cache :=
  sort_Sort (to_entry <$> range_clients m).

(** The cache after the deletions of [Purge]'s loop over [oldest]. *)
Definition delete_entries (oldest : digest_cache) (m : gmap string digest_client)
    : gmap string digest_client :=
  foldl (λ m e, delete (e_nonce e) m) m oldest.

(** Challenges issued one after the other, each with its nonce and time. *)
Fixpoint issue_all (l : list (string * Z)) : M unit :=
  match l with
  | [] => ret tt
  | (nonce, now) :: l' => RequireAuth nonce now ;;; issue_all l'
  end.

End vocabulary.

(** The session a challenge registers. *)
Definition fresh_client (now : Z) : digest_client := {| nc := 0; last_seen := now |}.

(** The sessions registered by challenges issued with the given nonces and
    times, and challenges issued at strictly increasing times. *)
Definition sessions (l : list (string * Z)) : list (string * digest_client) :=
  (λ p, (p.1, fresh_client p.2)) <$> l.

Definition issued_in_order (l : list (string * Z)) : Prop :=
  StronglySorted (λ a b, a.2 < b.2) l.

(** The configured sizes are not negative and their sum and the double of
    the tolerance are within [int]. *)
Definition sizes_in_range (da : DigestAuth) : Prop :=
  0 ≤ ClientCacheSize da ∧ 0 ≤ ClientCacheTolerance da ∧
  ClientCacheSize da + ClientCacheTolerance da < 2 ^ 63 ∧
  ClientCacheTolerance da * 2 < 2 ^ 63.

(** [m'] is [m] without [k] of its entries, none of which was seen later
    than an entry that stays. *)
Definition purged_oldest (m m' : gmap string digest_client) (k : Z) : Prop :=
  m' ⊆ m ∧ Z.of_nat (size m') + k = Z.of_nat (size m) ∧
  ∀ n c n' c', m !! n = Some c → m' !! n = None → m' !! n' = Some c' →
    last_seen c ≤ last_seen c'.

(** ** An instance of the externals, for the closed examples

    A bracketing function in place of a digest, a parser of unquoted
    [k=v] pairs, upper-casing of ASCII letters, URLs that are a path with an
    optional query, and a merge sort over the map's list of entries. *)
Module demo.

Definition H (s : string) : string := "h(" +:+ s +:+ ")".

Fixpoint split_on (sep : ascii) (s : string) : list string :=
  match s with
  | EmptyString => [EmptyString]
  | String c s' =>
      match split_on sep s' with
      | w :: ws => if Ascii.eqb c sep then EmptyString :: w :: ws else String c w :: ws
      | [] => [String c EmptyString]
      end
  end.

Fixpoint trim_left (s : string) : string :=
  match s with
  | String c s' => if Ascii.eqb c " "%char then trim_left s' else s
  | EmptyString => s
  end.

Definition parse_pair (p : string) : string * string :=
  match split_on "="%char (trim_left p) with
  | k :: v :: vs => (k, String.concat "=" (v :: vs))
  | [k] => (k, EmptyString)
  | [] => (EmptyString, EmptyString)
  end.

Definition parse_pairs (s : string) : option (gmap string string) :=
  Some (foldl (λ m p, <[(parse_pair p).1 := (parse_pair p).2]> m) ∅ (split_on ","%char s)).

Definition upper_ascii (c : ascii) : ascii :=
  let n := nat_of_ascii c in
  if (97 <=? n)%nat && (n <=? 122)%nat then ascii_of_nat (n - 32) else c.

Fixpoint to_upper (s : string) : string :=
  match s with
  | EmptyString => EmptyString
  | String c s' => String (upper_ascii c) (to_upper s')
  end.

Definition parse_url (s : string) : option url_URL :=
  match split_on "?"%char s with
  | p :: _ => Some {| Path := p |}
  | [] => None
  end.

Definition not_later (a b : digest_cache_entry) : Prop := Less b a = false.

#[export] Instance not_later_dec a b : Decision (not_later a b).
Proof. unfold not_later. apply _. Defined.

#[export] Instance externals : Externals := {|
  algorithms := {[ "MD5" := H ]};
  ParsePairs := parse_pairs;
  strings_ToUpper := to_upper;
  url_Parse := parse_url;
  range_clients := map_to_list;
  sort_Sort := merge_sort not_later
|}.

Definition headers : Headers := {|
  Authenticate := "WWW-Authenticate";
  Authorization := "Authorization";
  AuthInfo := "Authentication-Info";
  UnauthCode := 401;
  UnauthContentType := "text/plain";
  UnauthResponse := "401 Unauthorized"
|}.

(** An authenticator with the secret ["s3"] for ["alice"] and the empty
    string for everybody else, over the given cache. *)
Definition authenticator (size tolerance : Z) (ignore_nc : bool)
    (cache : gmap string digest_client) : DigestAuth := {|
  Algorithm := "MD5";
  Realm := "realm";
  Opaque := "op";
  Secrets := λ user _, if bool_decide (user = "alice") then "s3" else EmptyString;
  PlainTextSecrets := false;
  IgnoreNonceCount := ignore_nc;
  HeadersV := headers;
  ClientCacheSize := size;
  ClientCacheTolerance := tolerance;
  clients := cache
|}.

(** The response a client computes for the parameters it sends. *)
Definition client_response (user secret method uri nonce nc_ cnonce : string) : string :=
  H (strings_Join [secret; nonce; nc_; cnonce; "auth"; H (method +:+ ":" +:+ uri)] ":").

(** A GET request for [path] whose Authorization header carries the given
    digest parameters. *)
Definition request (path user secret uri nonce nc_ cnonce opaque qop : string) : Request := {|
  Method := "GET";
  RequestURI := path;
  URL := Some {| Path := path |};
  Header_Get := λ name,
    if bool_decide (name = "Authorization") then
      "Digest username=" +:+ user +:+ ", realm=realm, nonce=" +:+ nonce +:+
      ", uri=" +:+ uri +:+ ", qop=" +:+ qop +:+ ", nc=" +:+ nc_ +:+
      ", cnonce=" +:+ cnonce +:+ ", response=" +:+
      client_response user secret "GET" uri nonce nc_ cnonce +:+
      ", opaque=" +:+ opaque
    else EmptyString
|}.

(** A cache with the nonce ["n1"], never used, and an authenticator over it
    with replay protection or without. *)
Definition cache1 : gmap string digest_client := {[ "n1" := fresh_client 5 ]}.
Definition da1 : DigestAuth := authenticator 10 2 false cache1.
Definition da1_ignoring : DigestAuth := authenticator 10 2 true cache1.

(** The request of alice for [/api] with nonce ["n1"] and the given nc, and
    the same with an opaque that is not the configured one. *)
Definition req (nc_ : string) : Request :=
  request "/api" "alice" "s3" "/api" "n1" nc_ "c" "op" "auth".
Definition req_bad_opaque : Request :=
  request "/api" "alice" "s3" "/api" "n1" "1" "c" "other" "auth".

(** The request of a client that gives no username and computes its
    response from the empty secret. *)
Definition req_anonymous : Request :=
  request "/api" EmptyString EmptyString "/api" "n1" "1" "c" "op" "auth".

(** The digest parameters of a request, with the algorithm defaulted and as
    they are in the header. *)
Definition params (r : Request) : gmap string string :=
  default ∅ (request_params da1 r).
Definition raw_params (r : Request) : gmap string string :=
  default ∅ (DigestAuthParams (Header_Get r "Authorization")).

(** A cache of three sessions, and authenticators whose tolerance is 2 for
    a size of 0, and 0 for a size of 1. *)
Definition cache3 : gmap string digest_client :=
  <["n1" := fresh_client 1]> (<["n2" := fresh_client 2]> {[ "n3" := fresh_client 3 ]}).
Definition da_small : DigestAuth := authenticator 0 2 false cache3.
Definition da_zero_tolerance : DigestAuth := authenticator 1 0 false ∅.

(** An empty authenticator of size 2 and tolerance 2, and five challenges. *)
Definition da_empty : DigestAuth := authenticator 2 2 false ∅.
Definition issued5 : list (string * Z) :=
  [("n1", 1); ("n2", 2); ("n3", 3); ("n4", 4); ("n5", 5)].

End demo.

(** ** digest.go, the other functions *)

(** [digest_cache.Len]. *)
Definition Len (c : digest_cache) : Z := Z.of_nat (length c).

(** [digest_cache.Less(i, j)]; [None] is the run-time panic of an index out
    of range. *)
Definition Less_at (c : digest_cache) (i j : Z) : option bool :=
  if (0 <=? i) && (0 <=? j) then
    match c !! Z.to_nat i, c !! Z.to_nat j with
    | Some a, Some b => Some (Less a b)
    | _, _ => None
    end
  else None.

(** [digest_cache.Swap(i, j)]: [c[i], c[j] = c[j], c[i]]; [None] is the
    run-time panic of an index out of range. *)
Definition Swap (c : digest_cache) (i j : Z) : option digest_cache :=
  if (0 <=? i) && (0 <=? j) then
    match c !! Z.to_nat i, c !! Z.to_nat j with
    | Some a, Some b => Some (<[Z.to_nat j := a]> (<[Z.to_nat i := b]> c))
    | _, _ => None
    end
  else None.

Definition DefaultClientCacheSize : Z := 1000.
Definition DefaultClientCacheTolerance : Z := 100.

(** [NewDigestAuthenticator], with [opaque] the result of [RandomKey()] and
    [normal] the headers used when [Headers] is nil. *)
Definition NewDigestAuthenticator (realm : string) (secrets : string → string → string)
    (opaque : string) (normal : Headers) : DigestAuth := {|
  Algorithm := "MD5";
  Realm := realm;
  Opaque := opaque;
  Secrets := secrets;
  PlainTextSecrets := false;
  IgnoreNonceCount := false;
  HeadersV := normal;
  ClientCacheSize := DefaultClientCacheSize;
  ClientCacheTolerance := DefaultClientCacheTolerance;
  clients := ∅
|}.

(** What digest.go takes from [net/http] and from the package for
    [JustCheck] and [NewContext]: the canonical form of a header name, under
    which [http.Header] stores and reads, and the name of the username
    header. *)
Class HttpExternals := {
  CanonicalMIMEHeaderKey : string → string;
  AuthUsernameHeader : string
}.

(** [Info], the authentication information [NewContext] puts in the
    context.  [ResponseHeaders] is the [http.Header], by canonical name. *)
Record Info := {
  Username : string;
  Authenticated : bool;
  ResponseHeaders : gmap string string
}.

(** What the handler returned by [JustCheck] does with a request. *)
Inductive Forwarded :=
| Unauthorized (w : Response)                         (* da.RequireAuth(w, r) *)
| Forward (authinfo : option string) (r : Request).   (* wrapped(w, &ar.Request) *)

Section digest_more.
Context {E : Externals} {L : HttpExternals}.

(** [r.Header.Set(key, value)]. *)
Definition Header_Set (r : Request) (key value : string) : Request :=
  {| Method := Method r;
     RequestURI := RequestURI r;
     URL := URL r;
     Header_Get := λ name,
       if bool_decide (CanonicalMIMEHeaderKey name = CanonicalMIMEHeaderKey key)
       then value else Header_Get r name |}.

(** The handler returned by [JustCheck]: that of [Wrap] for a function that
    sets the username header of the request and calls the wrapped handler. *)
Definition JustCheck_handler (r : Request) (now : Z) (nonce : string) (now' : Z)
    : M Forwarded :=
  served <- Wrap_handler r now nonce now' ;;
  match served with
  | Challenged w => ret (Unauthorized w)
  | Wrapped username authinfo =>
      ret (Forward authinfo (Header_Set r AuthUsernameHeader username))
  end.

(** [NewContext]: the [Info] of the returned context.  [now] is the time of
    the check, [nonce] and [now'] are those of the challenge.  The
    operations on [da.mutex] are logged as the code makes them; what they do
    to a goroutine is [replay]'s business. *)
Definition NewContext (r : Request) (now : Z) (nonce : string) (now' : Z) : M Info :=
  mutex_Lock ;;;
  out <- CheckAuth r now ;;
  da <- get_da ;;
  info <-
    (if bool_decide (out.1 ≠ EmptyString) then
       match out.2 with
       | Some authinfo =>
           ret {| Username := out.1; Authenticated := true;
                  ResponseHeaders :=
                    {[ CanonicalMIMEHeaderKey (AuthInfo (HeadersV da)) := authinfo ]} |}
       | None => panic "nil pointer dereference"
       end
     else
       n <- clients_len ;;
       (if int_wrap (ClientCacheSize da + ClientCacheTolerance da) <? n
        then Purge (int_wrap (ClientCacheTolerance da * 2))
        else ret tt) ;;;
       clients_insert nonce {| nc := 0; last_seen := now' |} ;;;
       ret {| Username := out.1; Authenticated := false;
              ResponseHeaders :=
                {[ CanonicalMIMEHeaderKey (Authenticate (HeadersV da))
                     := challenge da nonce ]} |}) ;;
  mutex_Unlock ;;;
  ret info.

End digest_more.

(** ** What the operations on [da.mutex] do to the goroutine that makes them

    [sync.RWMutex], seen by one goroutine while no other one holds or wants
    the lock: [Lock] waits until nobody holds the lock, [RLock] until no
    writer holds it; to unlock what is not locked is a fatal error.  A wait
    for a lock the goroutine holds itself never ends. *)
Inductive mutex_state :=
| Free
| ReadLocked (others : nat)      (* 1 + others read locks *)
| WriteLocked.

Inductive progress :=
| Finished (s : mutex_state)     (* all events made, the mutex left in [s] *)
| Blocked (made : list event)    (* waits for ever after [made] *)
| Fatal (made : list event).     (* fatal error after [made] *)

Definition made_first (e : event) (p : progress) : progress :=
  match p with
  | Finished s => Finished s
  | Blocked made => Blocked (e :: made)
  | Fatal made => Fatal (e :: made)
  end.

Fixpoint replay (s : mutex_state) (tr : list event) : progress :=
  match tr with
  | [] => Finished s
  | e :: tr' =>
      match e, s with
      | EvLock, Free => made_first e (replay WriteLocked tr')
      | EvLock, _ => Blocked []
      | EvRLock, Free => made_first e (replay (ReadLocked 0) tr')
      | EvRLock, ReadLocked n => made_first e (replay (ReadLocked (S n)) tr')
      | EvRLock, WriteLocked => Blocked []
      | EvUnlock, WriteLocked => made_first e (replay Free tr')
      | EvUnlock, _ => Fatal []
      | EvRUnlock, ReadLocked 0 => made_first e (replay Free tr')
      | EvRUnlock, ReadLocked (S n) => made_first e (replay (ReadLocked n) tr')
      | EvRUnlock, _ => Fatal []
      | _, _ => made_first e (replay s tr')
      end
  end.

(** ** Sequences of calls *)

(** A call on an authenticator: a challenge, a check, or a request served by
    the handler of [Wrap]. *)
Inductive call :=
| Issue (nonce : string) (now : Z)
| Check (r : Request) (now : Z)
| Serve (r : Request) (now : Z) (nonce : string) (now' : Z).

Section calls.
Context {E : Externals}.

Definition run_call (c : call) : M unit :=
  match c with
  | Issue nonce now => RequireAuth nonce now ;;; ret tt
  | Check r now => CheckAuth r now ;;; ret tt
  | Serve r now nonce now' => Wrap_handler r now nonce now' ;;; ret tt
  end.

Fixpoint run_calls (l : list call) : M unit :=
  match l with
  | [] => ret tt
  | c :: l' => run_call c ;;; run_calls l'
  end.

End calls.

(** The authenticators have the same configuration; their caches may
    differ. *)
Definition same_config (da da' : DigestAuth) : Prop :=
  set_clients da' (clients da) = da.

(** ** More closed examples: requests, caches and header names *)
Module demo_more.

#[export] Instance http : HttpExternals := {|
  CanonicalMIMEHeaderKey := demo.to_upper;
  AuthUsernameHeader := "X-Authenticated-Username"
|}.

(** A request with the Basic scheme. *)
Definition req_basic : Request := {|
  Method := "GET";
  RequestURI := "/api";
  URL := Some {| Path := "/api" |};
  Header_Get := λ name,
    if bool_decide (name = "Authorization") then "Basic YWxpY2U6czM=" else EmptyString
|}.

(** The request of alice with an nc of seventeen digits, and with the
    largest nc of sixteen digits. *)
Definition req_long_nc : Request := demo.req "10000000000000000".
Definition req_max_nc : Request := demo.req "ffffffffffffffff".

(** The request [demo.req "1"] with the algorithm given, and with a username
    header of the client's own. *)
Definition req_with_algorithm : Request := {|
  Method := "GET";
  RequestURI := "/api";
  URL := Some {| Path := "/api" |};
  Header_Get := λ name,
    if bool_decide (name = "Authorization")
    then Header_Get (demo.req "1") "Authorization" +:+ ", algorithm=MD5"
    else EmptyString
|}.

Definition req_spoofing : Request := {|
  Method := "GET";
  RequestURI := "/api";
  URL := Some {| Path := "/api" |};
  Header_Get := λ name,
    if bool_decide (name = "Authorization") then Header_Get (demo.req "1") "Authorization"
    else if bool_decide (name = "X-Authenticated-Username") then "root"
    else EmptyString
|}.

(** Authenticators over the empty cache and over a session whose counter is
    the largest one. *)
Definition da_none : DigestAuth := demo.authenticator 10 2 false ∅.
Definition da_exhausted : DigestAuth :=
  demo.authenticator 10 2 false {[ "n1" := {| nc := 2 ^ 64 - 1; last_seen := 5 |} ]}.

(** Checks of alice's requests with the counters 3, then 2, then 1. *)
Definition checks : list call :=
  [Check (demo.req "3") 101; Check (demo.req "2") 102; Check (demo.req "1") 103].

(** Six challenges, a check and a served request. *)
Definition traffic : list call :=
  [Issue "n1" 1; Issue "n2" 2; Issue "n3" 3; Issue "n4" 4; Issue "n5" 5; Issue "n6" 6;
   Check (demo.req "1") 7; Serve req_basic 8 "n7" 9].

End demo_more.

(** [da] has the configuration of [da0] and a cache of at most
    [size + tolerance + 1] sessions. *)
Definition within_bound (da0 da : DigestAuth) : Prop :=
  same_config da0 da ∧
  Z.of_nat (size (clients da)) ≤ ClientCacheSize da0 + ClientCacheTolerance da0 + 1.

(** ** Results: the verifier *)

Section verifier.
Context {E : Externals}.

Lemma set_clients_id da : set_clients da (clients da) = da.
Proof. by destruct da. Qed.

Lemma param_default_algorithm auth k :
  k ≠ "algorithm" → param (default_algorithm auth) k = param auth k.
Proof.
  intros Hk. unfold default_algorithm, param.
  destruct (auth !! "algorithm"); [done|]. by rewrite lookup_insert_ne.
Qed.

Lemma alter_set_counter (m : gmap string digest_client) nonce client n now :
  m !! nonce = Some client →
  alter (λ c, {| nc := nc c; last_seen := now |}) nonce
    (alter (λ c, {| nc := n; last_seen := last_seen c |}) nonce m)
  = <[nonce := {| nc := n; last_seen := now |}]> m.
Proof.
  intros Hm. apply map_eq. intros k.
  destruct (decide (k = nonce)) as [->|Hk].
  - rewrite lookup_insert_eq, !lookup_alter_eq, Hm. done.
  - rewrite lookup_insert_ne, !lookup_alter_ne by done. done.
Qed.

(** The run of an accepted request. *)
Lemma CheckAuth_accepted da r now auth H n client :
  well_formed da r auth H →
  ParseUint16 (param auth "nc") = Some n →
  clients da !! param auth "nonce" = Some client →
  nc client = 0 ∨ nc client < n ∨ IgnoreNonceCount da = true →
  CheckAuth r now da =
    mkRun (Return (param auth "username",
                   Some (format_info (compute_rspauth H (compute_HA1 da H auth) auth)
                           (param auth "cnonce") (param auth "nc"))))
          (set_clients da (<[param auth "nonce" := {| nc := n; last_seen := now |}]> (clients da)))
          [EvRLock; EvLookup (param auth "nonce"); EvUpdate (param auth "nonce");
           EvUpdate (param auth "nonce"); EvRUnlock].
Proof.
  intros [Hp Ho Hq Ha Hu Hr] Hn Hc Hk.
  unfold request_params in Hp.
  unfold CheckAuth, defer, bind, mutex_RLock, mutex_RUnlock, emit, get_da. simpl.
  destruct (DigestAuthParams _) as [auth0|]; [|done].
  simpl in Hp. injection Hp as ->.
  rewrite Ho, Hq. rewrite !bool_decide_eq_false_2 by (intros ?; congruence). simpl.
  rewrite Ha, Hu. simpl.
  unfold ConstantTimeCompare. rewrite <- Hr, bool_decide_eq_true_2 by done. simpl.
  rewrite Hn. unfold clients_lookup, bind, emit, get_da, ret. simpl. rewrite Hc.
  assert ((negb (nc client =? 0) && (n <=? nc client) && negb (IgnoreNonceCount da)) = false) as ->.
  { destruct Hk as [Hk|[Hk|Hk]].
    - rewrite Hk. done.
    - apply Z.leb_gt in Hk. rewrite Hk. by rewrite andb_false_r.
    - rewrite Hk. by rewrite andb_false_r. }
  unfold client_set_nc, client_set_last_seen, bind, emit, get_da, put_clients, ret. simpl.
  f_equal. unfold set_clients. simpl. f_equal. by eapply alter_set_counter.
Qed.

(** The run of a well-formed request whose counter is not above the stored
    one, with replay protection. *)
Lemma CheckAuth_replayed da r now auth H n client :
  well_formed da r auth H →
  ParseUint16 (param auth "nc") = Some n →
  clients da !! param auth "nonce" = Some client →
  nc client ≠ 0 → n ≤ nc client → IgnoreNonceCount da = false →
  CheckAuth r now da =
    mkRun (Return Rejected) da [EvRLock; EvLookup (param auth "nonce"); EvRUnlock].
Proof.
  intros [Hp Ho Hq Ha Hu Hr] Hn Hc Hk1 Hk2 Hi.
  unfold request_params in Hp.
  unfold CheckAuth, defer, bind, mutex_RLock, mutex_RUnlock, emit, get_da. simpl.
  destruct (DigestAuthParams _) as [auth0|]; [|done].
  simpl in Hp. injection Hp as ->.
  rewrite Ho, Hq. rewrite !bool_decide_eq_false_2 by (intros ?; congruence). simpl.
  rewrite Ha, Hu. simpl.
  unfold ConstantTimeCompare. rewrite <- Hr, bool_decide_eq_true_2 by done. simpl.
  rewrite Hn. unfold clients_lookup, bind, emit, get_da, ret. simpl. rewrite Hc.
  apply Z.eqb_neq in Hk1. apply Z.leb_le in Hk2. rewrite Hk1, Hk2, Hi. done.
Qed.

(** Every run of [CheckAuth] is of one of three kinds: a rejection before
    the cache is looked at, a rejection after the lookup of the nonce of a
    well-formed request, or the acceptance of a well-formed request. *)
Lemma CheckAuth_inv da r now :
  (rejects (CheckAuth r now da) da ∧
   (trace (CheckAuth r now da) = [EvRLock; EvRUnlock] ∨
    ∃ auth H, well_formed da r auth H ∧
      trace (CheckAuth r now da) = [EvRLock; EvLookup (param auth "nonce"); EvRUnlock]))
  ∨ (∃ auth H n client, well_formed da r auth H ∧
       ParseUint16 (param auth "nc") = Some n ∧
       clients da !! param auth "nonce" = Some client ∧
       (nc client = 0 ∨ nc client < n ∨ IgnoreNonceCount da = true)).
Proof.
  unfold rejects.
  destruct (request_params da r) as [auth|] eqn:Hp; cycle 1.
  { left. unfold request_params in Hp.
    unfold CheckAuth, defer, bind, mutex_RLock, mutex_RUnlock, emit, get_da. simpl.
    destruct (DigestAuthParams _); [done|]. simpl. auto. }
  destruct (decide (Opaque da = param auth "opaque")) as [Ho|Ho]; cycle 1.
  { left. unfold request_params in Hp.
    unfold CheckAuth, defer, bind, mutex_RLock, mutex_RUnlock, emit, get_da. simpl.
    destruct (DigestAuthParams _) as [auth0|]; [|done]. simpl in Hp. injection Hp as ->.
    rewrite (bool_decide_eq_true_2 _ Ho). simpl. auto. }
  destruct (decide (param auth "qop" = "auth")) as [Hq|Hq]; cycle 1.
  { left. unfold request_params in Hp.
    unfold CheckAuth, defer, bind, mutex_RLock, mutex_RUnlock, emit, get_da. simpl.
    destruct (DigestAuthParams _) as [auth0|]; [|done]. simpl in Hp. injection Hp as ->.
    rewrite (bool_decide_eq_true_2 _ Hq), orb_true_r. simpl. auto. }
  destruct (algorithms !! strings_ToUpper (param auth "algorithm")) as [H|] eqn:Ha; cycle 1.
  { left. unfold request_params in Hp.
    unfold CheckAuth, defer, bind, mutex_RLock, mutex_RUnlock, emit, get_da. simpl.
    destruct (DigestAuthParams _) as [auth0|]; [|done]. simpl in Hp. injection Hp as ->.
    rewrite Ha. destruct (_ || _); simpl; auto. }
  destruct (uri_matches r (param auth "uri")) eqn:Hu; cycle 1.
  { left. unfold request_params in Hp.
    unfold CheckAuth, defer, bind, mutex_RLock, mutex_RUnlock, emit, get_da. simpl.
    destruct (DigestAuthParams _) as [auth0|]; [|done]. simpl in Hp. injection Hp as ->.
    rewrite Ha, Hu. destruct (_ || _); simpl; auto. }
  destruct (decide (param auth "response" = compute_KD H (compute_HA1 da H auth) r auth))
    as [Hr|Hr]; cycle 1.
  { left. unfold request_params in Hp.
    unfold CheckAuth, defer, bind, mutex_RLock, mutex_RUnlock, emit, get_da. simpl.
    destruct (DigestAuthParams _) as [auth0|]; [|done]. simpl in Hp. injection Hp as ->.
    rewrite Ha, Hu. unfold ConstantTimeCompare.
    rewrite (bool_decide_eq_false_2 (compute_KD _ _ _ _ = _)) by (intros ?; congruence).
    destruct (_ || _); simpl; auto. }
  assert (well_formed da r auth H) as Hwf by (split; auto).
  destruct (ParseUint16 (param auth "nc")) as [n|] eqn:Hn; cycle 1.
  { left. unfold request_params in Hp.
    unfold CheckAuth, defer, bind, mutex_RLock, mutex_RUnlock, emit, get_da. simpl.
    destruct (DigestAuthParams _) as [auth0|]; [|done]. simpl in Hp. injection Hp as ->.
    rewrite Ha, Hu, Hn. unfold ConstantTimeCompare.
    destruct (_ || _); simpl; auto. destruct (bool_decide _); simpl; auto. }
  destruct (clients da !! param auth "nonce") as [client|] eqn:Hc; cycle 1.
  { left. unfold request_params in Hp.
    unfold CheckAuth, defer, bind, mutex_RLock, mutex_RUnlock, emit, get_da. simpl.
    destruct (DigestAuthParams _) as [auth0|]; [|done]. simpl in Hp. injection Hp as ->.
    rewrite <- Ho, Hq, Ha, Hu, Hn. unfold ConstantTimeCompare.
    rewrite !bool_decide_eq_false_2 by (intros ?; congruence). simpl.
    rewrite <- Hr, bool_decide_eq_true_2 by done. simpl.
    unfold clients_lookup, bind, emit, get_da, ret. simpl. rewrite Hc. simpl. eauto 10. }
  destruct (decide (nc client = 0)) as [Hz|Hz]; [right; eauto 10|].
  destruct (decide (nc client < n)) as [Hlt|Hlt]; [right; eauto 10|].
  destruct (IgnoreNonceCount da) eqn:Hi; [right; exists auth, H, n, client; auto 10|].
  left. rewrite (CheckAuth_replayed da r now auth H n client) by (auto; lia).
  simpl. eauto 10.
Qed.

(** [CheckAuth] never panics. *)
Lemma CheckAuth_returns da r now : ∃ out, result (CheckAuth r now da) = Return out.
Proof.
  destruct (CheckAuth_inv da r now) as [[[Hres _] _]|(auth & H & n & client & Hwf & Hn & Hc & Hk)].
  - eauto.
  - rewrite (CheckAuth_accepted da r now auth H n client) by done. simpl. eauto.
Qed.

(** The checks of a request depend on the configuration only, not on the
    cache. *)
Lemma well_formed_set_clients da c r auth H :
  well_formed da r auth H → well_formed (set_clients da c) r auth H.
Proof. intros [Hp Ho Hq Ha Hu Hr]. by split. Qed.

Lemma valid_response_set_clients da c r user nonce n :
  valid_response da r user nonce n → valid_response (set_clients da c) r user nonce n.
Proof.
  intros (auth & H & Hwf & Hrest). exists auth, H.
  split; [by apply well_formed_set_clients|done].
Qed.

Lemma valid_response_accepted da r user nonce n client now :
  valid_response da r user nonce n →
  clients da !! nonce = Some client →
  nc client = 0 ∨ nc client < n ∨ IgnoreNonceCount da = true →
  accepts (CheckAuth r now da) user ∧
  final (CheckAuth r now da) =
    set_clients da (<[nonce := {| nc := n; last_seen := now |}]> (clients da)).
Proof.
  intros (auth & H & Hwf & <- & <- & Hn) Hc Hk.
  rewrite (CheckAuth_accepted da r now auth H n client) by done.
  split; [eexists; done|done].
Qed.

Lemma valid_response_replayed da r user nonce n client now :
  valid_response da r user nonce n →
  clients da !! nonce = Some client →
  nc client ≠ 0 → n ≤ nc client → IgnoreNonceCount da = false →
  rejects (CheckAuth r now da) da.
Proof.
  intros (auth & H & Hwf & <- & <- & Hn) Hc Hk1 Hk2 Hi.
  rewrite (CheckAuth_replayed da r now auth H n client) by done. done.
Qed.

Lemma stored_counter_insert da nonce n now :
  stored_counter (set_clients da (<[nonce := {| nc := n; last_seen := now |}]> (clients da))) nonce
  = Some n.
Proof. unfold stored_counter. simpl. by rewrite lookup_insert_eq. Qed.

(** One accepted check: what it returns and what it leaves behind. *)
Lemma accepted_step da r user nonce n client now :
  valid_response da r user nonce n →
  clients da !! nonce = Some client →
  nc client = 0 ∨ nc client < n ∨ IgnoreNonceCount da = true →
  accepts (CheckAuth r now da) user ∧
  clients (final (CheckAuth r now da)) !! nonce = Some {| nc := n; last_seen := now |} ∧
  stored_counter (final (CheckAuth r now da)) nonce = Some n ∧
  IgnoreNonceCount (final (CheckAuth r now da)) = IgnoreNonceCount da ∧
  ∀ r' user' n', valid_response da r' user' nonce n' →
                 valid_response (final (CheckAuth r now da)) r' user' nonce n'.
Proof.
  intros Hv Hc Hk.
  destruct (valid_response_accepted da r user nonce n client now Hv Hc Hk) as [A F].
  rewrite F. split; [done|]. split; [simpl; apply lookup_insert_eq|].
  split; [apply stored_counter_insert|]. split; [done|].
  intros r' user' n' Hv'. by apply valid_response_set_clients.
Qed.

(** C1 (counter monotonicity).  For a nonce registered with counter 0,
    well-formed responses with the counters 1, 2 and 3, checked in this
    order, are accepted each, and each acceptance stores the new counter.
    A well-formed response with the counter 2 checked afterwards is
    rejected, the cache staying as it was, when replay protection is on;
    with [IgnoreNonceCount] it is accepted and the stored counter becomes 2. *)
Theorem counter_monotonicity da r1 r2 r3 r4 user nonce t0 t1 t2 t3 t4 :
  clients da !! nonce = Some {| nc := 0; last_seen := t0 |} →
  valid_response da r1 user nonce 1 →
  valid_response da r2 user nonce 2 →
  valid_response da r3 user nonce 3 →
  valid_response da r4 user nonce 2 →
  let run1 := CheckAuth r1 t1 da in
  let run2 := CheckAuth r2 t2 (final run1) in
  let run3 := CheckAuth r3 t3 (final run2) in
  let run4 := CheckAuth r4 t4 (final run3) in
  accepts run1 user ∧ stored_counter (final run1) nonce = Some 1 ∧
  accepts run2 user ∧ stored_counter (final run2) nonce = Some 2 ∧
  accepts run3 user ∧ stored_counter (final run3) nonce = Some 3 ∧
  if IgnoreNonceCount da
  then accepts run4 user ∧ stored_counter (final run4) nonce = Some 2
  else rejects run4 (final run3).
Proof.
  intros Hc H1 H2 H3 H4 run1 run2 run3 run4.
  destruct (accepted_step da r1 user nonce 1 _ t1 H1 Hc) as (A1 & C1 & S1 & I1 & V1);
    [by left|].
  fold run1 in A1, C1, S1, I1, V1.
  destruct (accepted_step (final run1) r2 user nonce 2 _ t2 (V1 _ _ _ H2) C1)
    as (A2 & C2 & S2 & I2 & V2); [right; left; simpl; lia|].
  fold run2 in A2, C2, S2, I2, V2.
  destruct (accepted_step (final run2) r3 user nonce 3 _ t3 (V2 _ _ _ (V1 _ _ _ H3)) C2)
    as (A3 & C3 & S3 & I3 & V3); [right; left; simpl; lia|].
  fold run3 in A3, C3, S3, I3, V3.
  pose proof (V3 _ _ _ (V2 _ _ _ (V1 _ _ _ H4))) as H4'.
  assert (IgnoreNonceCount (final run3) = IgnoreNonceCount da) as Hi by congruence.
  do 6 (split; [done|]).
  destruct (IgnoreNonceCount da) eqn:Hflag.
  - destruct (accepted_step (final run3) r4 user nonce 2 _ t4 H4' C3)
      as (A4 & C4 & S4 & _); [by right; right|]. done.
  - apply (valid_response_replayed (final run3) r4 user nonce 2 _ t4 H4' C3);
      simpl; [lia|lia|done].
Qed.

(** C2 (counter zero).  For a nonce whose stored counter is 0, a well-formed
    response whose nc reads as 0 is accepted and leaves the stored counter
    at 0; so the same request is accepted again at each of any number of
    later times, with replay protection on or off. *)
Theorem zero_counter_accepted_again da r user nonce t0 times :
  clients da !! nonce = Some {| nc := 0; last_seen := t0 |} →
  valid_response da r user nonce 0 →
  length (CheckAuth_repeat r times da) = length times ∧
  Forall (λ run, accepts run user ∧ stored_counter (final run) nonce = Some 0)
         (CheckAuth_repeat r times da).
Proof.
  revert da t0. induction times as [|t times IH]; intros da t0 Hc Hv; simpl.
  { split; [done|constructor]. }
  destruct (accepted_step da r user nonce 0 _ t Hv Hc) as (A & C & S & _ & V); [by left|].
  destruct (IH (final (CheckAuth r t da)) t C (V _ _ _ Hv)) as [IH1 IH2].
  split; [simpl in *; congruence|]. by constructor.
Qed.

Lemma append_cons (a : ascii) (s t : string) :
  String a s +:+ t = String a (s +:+ t).
Proof. reflexivity. Qed.

Lemma prefix_app (p s : string) :
  String.prefix p s = true ↔ ∃ rest, s = p +:+ rest.
Proof.
  revert p. induction s as [|b s IH]; intros [|a p]; simpl.
  - split; [intros _; by exists EmptyString|done].
  - split; [done|]. intros [rest Hrest]. rewrite append_cons in Hrest. discriminate.
  - split; [intros _; by exists (String b s)|done].
  - destruct (Ascii.ascii_dec a b) as [->|Hab].
    + rewrite IH. split; intros [rest Hrest]; exists rest;
        rewrite append_cons in *; congruence.
    + split; [done|]. intros [rest Hrest]. rewrite append_cons in Hrest. congruence.
Qed.

Lemma len_app (s t : string) : len (s +:+ t) = len s + len t.
Proof.
  unfold len. induction s as [|a s IH].
  - change (EmptyString +:+ t) with t. simpl. lia.
  - rewrite append_cons. simpl String.length. lia.
Qed.

(** C7 (round trip).  A request whose parameters are correctly formed is
    accepted with its username: the opaque is the configured one, the qop is
    ["auth"], the algorithm (MD5 when absent) is registered as [H], the uri
    matches, the response is [H(HA1:nonce:nc:cnonce:qop:HA2)] with
    [HA2 = H(method:uri)] and [HA1] the secret, rehashed as
    [H(username:realm:secret)] with plain text secrets, the nonce is
    registered and nc reads as a counter above the stored one.  The
    session then holds the new counter and the time of the check. *)
Theorem round_trip da r now auth H client n :
  request_params da r = Some auth →
  param auth "opaque" = Opaque da →
  param auth "qop" = "auth" →
  algorithms !! strings_ToUpper (param auth "algorithm") = Some H →
  uri_matches r (param auth "uri") = true →
  let secret := Secrets da (param auth "username") (Realm da) in
  let HA1 := if PlainTextSecrets da
             then H (param auth "username" +:+ ":" +:+ Realm da +:+ ":" +:+ secret)
             else secret in
  let HA2 := H (Method r +:+ ":" +:+ param auth "uri") in
  param auth "response" =
    H (HA1 +:+ ":" +:+ param auth "nonce" +:+ ":" +:+ param auth "nc" +:+ ":" +:+
       param auth "cnonce" +:+ ":" +:+ param auth "qop" +:+ ":" +:+ HA2) →
  clients da !! param auth "nonce" = Some client →
  ParseUint16 (param auth "nc") = Some n →
  nc client < n →
  accepts (CheckAuth r now da) (param auth "username") ∧
  clients (final (CheckAuth r now da)) !! param auth "nonce"
    = Some {| nc := n; last_seen := now |}.
Proof.
  intros Hp Ho Hq Ha Hu secret HA1 HA2 Hr Hc Hn Hlt.
  assert (well_formed da r auth H) as Hwf by (by split).
  rewrite (CheckAuth_accepted da r now auth H n client) by auto.
  split; [eexists; done|]. simpl. apply lookup_insert_eq.
Qed.

(** C10 (confirmation).  When [CheckAuth] returns a username with an
    authinfo, the authinfo is
    [qop="auth", rspauth="<rspauth>", cnonce="<cnonce>", nc="<nc>"] with the
    cnonce and nc strings of the request and
    [rspauth = H(HA1:nonce:nc:cnonce:auth:H(":"+uri))], without the method. *)
Theorem confirmation_format da r now user info :
  result (CheckAuth r now da) = Return (user, Some info) →
  ∃ auth H,
    request_params da r = Some auth ∧
    algorithms !! strings_ToUpper (param auth "algorithm") = Some H ∧
    user = param auth "username" ∧
    let secret := Secrets da (param auth "username") (Realm da) in
    let HA1 := if PlainTextSecrets da
               then H (param auth "username" +:+ ":" +:+ Realm da +:+ ":" +:+ secret)
               else secret in
    let rspauth :=
      H (HA1 +:+ ":" +:+ param auth "nonce" +:+ ":" +:+ param auth "nc" +:+ ":" +:+
         param auth "cnonce" +:+ ":" +:+ "auth" +:+ ":" +:+ H (":" +:+ param auth "uri")) in
    info = "qop=" +:+ quoted "auth" +:+ ", rspauth=" +:+ quoted rspauth +:+
           ", cnonce=" +:+ quoted (param auth "cnonce") +:+
           ", nc=" +:+ quoted (param auth "nc").
Proof.
  intros Hres.
  destruct (CheckAuth_inv da r now)
    as [[[Hrej _] _]|(auth & H & n & client & Hwf & Hn & Hc & Hk)].
  { rewrite Hrej in Hres. done. }
  rewrite (CheckAuth_accepted da r now auth H n client) in Hres by done.
  simpl in Hres. injection Hres as <- <-.
  exists auth, H. destruct Hwf as [Hp Ho Hq Ha Hu Hr].
  do 3 (split; [done|]).
  unfold format_info, compute_rspauth, compute_HA1, strings_Join. simpl.
  rewrite Hq. done.
Qed.

(** C9 (opaque and qop gating).  A request whose opaque parameter is not the
    configured opaque, or whose qop parameter is not ["auth"], is rejected
    and leaves the authenticator as it was, whatever its other parameters;
    a request whose header gives no parameters at all is rejected as well. *)
Theorem opaque_qop_gating da r now :
  (∀ auth, DigestAuthParams (Header_Get r (Authorization (HeadersV da))) = Some auth →
           param auth "opaque" ≠ Opaque da ∨ param auth "qop" ≠ "auth") →
  rejects (CheckAuth r now da) da.
Proof.
  intros Hbad.
  destruct (CheckAuth_inv da r now)
    as [[Hrej _]|(auth' & H & n & client & Hwf & _)]; [done|].
  destruct Hwf as [Hp' Ho Hq _ _ _]. unfold request_params in Hp'.
  destruct (DigestAuthParams _) as [auth|] eqn:Hp; [|done].
  simpl in Hp'. injection Hp' as <-.
  rewrite !param_default_algorithm in Ho, Hq by done.
  destruct (Hbad auth eq_refl); done.
Qed.

Lemma uri_matches_iff r uri :
  uri_matches r uri = true ↔
    RequestURI r = uri ∨
    ∃ u ru, url_Parse uri = Some u ∧ URL r = Some ru ∧
            len (Path u) ≤ len (Path ru) ∧ ∃ rest, Path ru = Path u +:+ rest.
Proof.
  unfold uri_matches, strings_HasPrefix.
  case_bool_decide as Hne.
  - destruct (url_Parse uri) as [u|]; cycle 1.
    { split; [done|]. intros [?|(u & ru & ? & _)]; done. }
    destruct (URL r) as [ru|]; cycle 1.
    { split; [done|]. intros [?|(u' & ru & _ & ? & _)]; done. }
    destruct (len (Path ru) <? len (Path u)) eqn:Hlen.
    { apply Z.ltb_lt in Hlen. split; [done|].
      intros [?|(u' & ru' & ? & ? & ? & _)]; [done|]. simplify_eq. lia. }
    apply Z.ltb_ge in Hlen.
    destruct (String.prefix (Path u) (Path ru)) eqn:Hpre; simpl.
    + split; [|done]. intros _. right. exists u, ru.
      do 3 (split; [done|]). by apply prefix_app.
    + split; [done|]. intros [?|(u' & ru' & ? & ? & _ & Hrest)]; [done|].
      simplify_eq. apply prefix_app in Hrest. congruence.
  - split; [|done]. intros _. left.
    destruct (decide (RequestURI r = uri)) as [?|Hd]; [done|]. by destruct Hne.
Qed.

Lemma uri_mismatch_rejected da r now auth :
  request_params da r = Some auth →
  uri_matches r (param auth "uri") = false →
  rejects (CheckAuth r now da) da.
Proof.
  intros Hp Hu.
  destruct (CheckAuth_inv da r now)
    as [[Hrej _]|(auth' & H & n & client & Hwf & _)]; [done|].
  destruct Hwf as [Hp' _ _ _ Hu' _]. congruence.
Qed.

(** C8 (URI matching).  The check passes when the uri parameter is the
    request URI; otherwise it passes exactly when uri parses as a URL, the
    request has a URL, the parsed path is no longer than the request path
    and the request path starts with it.  A request whose uri fails the
    check is rejected.  With request path [/api/sub/resource], the uri
    [/api] passes and the uri [/other] does not, [url.Parse] giving each of
    them as its own path. *)
Theorem uri_matching :
  (∀ r uri, RequestURI r = uri → uri_matches r uri = true) ∧
  (∀ r uri, RequestURI r ≠ uri →
     (uri_matches r uri = true ↔
      ∃ u ru, url_Parse uri = Some u ∧ URL r = Some ru ∧
              len (Path u) ≤ len (Path ru) ∧ ∃ rest, Path ru = Path u +:+ rest)) ∧
  (∀ da r now auth, request_params da r = Some auth →
     uri_matches r (param auth "uri") = false → rejects (CheckAuth r now da) da) ∧
  (∀ r, URL r = Some {| Path := "/api/sub/resource" |} →
     (url_Parse "/api" = Some {| Path := "/api" |} → uri_matches r "/api" = true) ∧
     (url_Parse "/other" = Some {| Path := "/other" |} → RequestURI r ≠ "/other" →
      uri_matches r "/other" = false)).
Proof.
  split; [|split; [|split]].
  - intros r uri Heq. apply uri_matches_iff. by left.
  - intros r uri Hne. rewrite uri_matches_iff. split; [|by right].
    intros [?|?]; done.
  - apply uri_mismatch_rejected.
  - intros r Hurl. split.
    + intros Hparse. apply uri_matches_iff. right.
      exists {| Path := "/api" |}, {| Path := "/api/sub/resource" |}.
      do 2 (split; [done|]). split; [by vm_compute|]. by exists "/sub/resource".
    + intros Hparse Hne. apply not_true_is_false. intros Hm.
      apply uri_matches_iff in Hm as [?|(u & ru & ? & ? & _ & rest & Hrest)]; [done|].
      by simplify_eq.
Qed.


(** C5 (locking), what the code does.  A run of [CheckAuth] that accepts
    looks the nonce up and updates the session's counter and time between
    [RLock] and [RUnlock]: the two writes are made under the shared lock,
    and no run of [CheckAuth] takes the exclusive lock. *)
Theorem CheckAuth_writes_under_shared_lock da r now user info :
  result (CheckAuth r now da) = Return (user, Some info) →
  ∃ nonce,
    trace (CheckAuth r now da) =
      [EvRLock; EvLookup nonce; EvUpdate nonce; EvUpdate nonce; EvRUnlock] ∧
    writes_under_shared Unlocked (trace (CheckAuth r now da)) =
      [EvUpdate nonce; EvUpdate nonce] ∧
    disciplined Unlocked (trace (CheckAuth r now da)) = false ∧
    EvLock ∉ trace (CheckAuth r now da).
Proof.
  intros Hres.
  destruct (CheckAuth_inv da r now)
    as [[[Hrej _] _]|(auth & H & n & client & Hwf & Hn & Hc & Hk)].
  { rewrite Hrej in Hres. done. }
  rewrite (CheckAuth_accepted da r now auth H n client) by done. simpl.
  exists (param auth "nonce"). do 3 (split; [done|]).
  rewrite !elem_of_cons, elem_of_nil. intros [?|[?|[?|[?|[?|?]]]]]; done.
Qed.

End verifier.

(** ** Results: the nonce cache *)

Section cache.
Context {E : Externals}.

Lemma for_each_delete (l : digest_cache) da :
  for_each l (λ client, clients_delete (e_nonce client)) da =
    mkRun (Return tt) (set_clients da (delete_entries l (clients da)))
          ((λ e, EvDelete (e_nonce e)) <$> l).
Proof.
  revert da. induction l as [|e l IH]; intros da; simpl.
  - unfold ret. by rewrite set_clients_id.
  - unfold bind at 1. unfold clients_delete at 1.
    unfold bind, emit, get_da, put_clients. simpl. rewrite IH. simpl. done.
Qed.

(** The run of [Purge] when [count] is within the bounds of the slice. *)
Lemma Purge_in_bounds count da :
  0 ≤ count ≤ Z.of_nat (length (cache_entries (clients da))) →
  Purge count da =
    mkRun (Return tt)
          (set_clients da (delete_entries (take (Z.to_nat count) (cache_entries (clients da)))
                                          (clients da)))
          ([EvLock; EvRange] ++
           ((λ e, EvDelete (e_nonce e)) <$> take (Z.to_nat count) (cache_entries (clients da)))
           ++ [EvUnlock]).
Proof.
  intros [H0 Hn].
  unfold Purge, bind, mutex_Lock, mutex_Unlock, emit, get_da, slice_to.
  cbn [result final trace]. fold (cache_entries (clients da)).
  assert ((count <? 0) || (Z.of_nat (length (cache_entries (clients da))) <? count) = false) as ->.
  { apply orb_false_iff. split; [by apply Z.ltb_ge|by apply Z.ltb_ge]. }
  unfold ret. simpl. rewrite for_each_delete. simpl. done.
Qed.

(** The run of [Purge] when [count] is outside of the bounds of the slice:
    it panics holding the lock, the cache untouched. *)
Lemma Purge_out_of_bounds count da :
  count < 0 ∨ Z.of_nat (length (cache_entries (clients da))) < count →
  Purge count da = mkRun (Panic "slice bounds out of range") da [EvLock; EvRange].
Proof.
  intros Hout.
  unfold Purge, bind, mutex_Lock, mutex_Unlock, emit, get_da, slice_to.
  cbn [result final trace]. fold (cache_entries (clients da)).
  assert ((count <? 0) || (Z.of_nat (length (cache_entries (clients da))) <? count) = true) as ->.
  { apply orb_true_iff. destruct Hout; [left|right]; by apply Z.ltb_lt. }
  done.
Qed.

Lemma delete_entries_keys (l : digest_cache) (m : gmap string digest_client) :
  delete_entries l m = foldl (λ m k, delete k m) m (e_nonce <$> l).
Proof. unfold delete_entries. by rewrite foldl_fmap. Qed.

Lemma lookup_delete_keys (ks : list string) (m : gmap string digest_client) k :
  foldl (λ m k, delete k m) m ks !! k = if decide (k ∈ ks) then None else m !! k.
Proof.
  revert m. induction ks as [|k' ks IH]; intros m.
  - destruct (decide (k ∈ [])) as [Hin|_]; [by apply elem_of_nil in Hin|done].
  - change (foldl (λ m k, delete k m) (delete k' m) ks !! k
            = if decide (k ∈ k' :: ks) then None else m !! k).
    rewrite IH.
    destruct (decide (k ∈ ks)) as [Hin|Hin]; destruct (decide (k ∈ k' :: ks)) as [Hin'|Hin'].
    + done.
    + destruct Hin'. by right.
    + apply elem_of_cons in Hin' as [->|?]; [|done]. apply lookup_delete_eq.
    + apply lookup_delete_ne. intros ->. destruct Hin'. by left.
Qed.

Lemma delete_keys_subseteq (ks : list string) (m : gmap string digest_client) :
  foldl (λ m k, delete k m) m ks ⊆ m.
Proof.
  apply map_subseteq_spec. intros k c. rewrite lookup_delete_keys.
  by destruct (decide _).
Qed.

Lemma size_delete_keys (ks : list string) (m : gmap string digest_client) :
  NoDup ks → (∀ k, k ∈ ks → is_Some (m !! k)) →
  (size (foldl (λ m k, delete k m) m ks) + length ks = size m)%nat.
Proof.
  revert m. induction ks as [|k ks IH]; intros m Hnd Hin; simpl; [lia|].
  apply NoDup_cons in Hnd as [Hk Hnd].
  destruct (Hin k) as [c Hc]; [by left|].
  assert (∀ k', k' ∈ ks → is_Some (delete k m !! k')) as Hin'.
  { intros k' Hk'. rewrite lookup_delete_ne; [apply Hin; by right|].
    intros ->. done. }
  pose proof (IH (delete k m) Hnd Hin') as IH'.
  rewrite (map_size_delete_Some k m) in IH' by eauto.
  assert (size m ≠ 0%nat); [|lia].
  intros Hz. apply map_size_empty_inv in Hz. by rewrite Hz, lookup_empty in Hc.
Qed.

Lemma Sorted_weaken {A} (R R' : A → A → Prop) (l : list A) :
  (∀ a b, R a b → R' a b) → Sorted R l → Sorted R' l.
Proof.
  intros HR. induction 1 as [|a l Hl IH Hhd]; constructor; [done|].
  destruct Hhd; constructor. by apply HR.
Qed.

Section contracts.
Hypothesis HE : GoContracts E.

Lemma cache_entries_perm m : cache_entries m ≡ₚ to_entry <$> map_to_list m.
Proof.
  unfold cache_entries. rewrite (sort_Sort_perm E HE).
  by rewrite (range_clients_perm E HE).
Qed.

Lemma length_cache_entries m : length (cache_entries m) = size m.
Proof. by rewrite cache_entries_perm, length_fmap, length_map_to_list. Qed.

Lemma elem_of_cache_entries m e :
  e ∈ cache_entries m ↔ ∃ c, m !! e_nonce e = Some c ∧ e_last_seen e = last_seen c.
Proof.
  rewrite cache_entries_perm, list_elem_of_fmap. split.
  - intros ([k c] & -> & Hin). apply elem_of_map_to_list in Hin. simpl. eauto.
  - intros (c & Hc & Hls). exists (e_nonce e, c). split.
    + destruct e. unfold to_entry. simpl in *. by rewrite Hls.
    + by apply elem_of_map_to_list.
Qed.

Lemma cache_entries_nonces m : e_nonce <$> cache_entries m ≡ₚ (map_to_list m).*1.
Proof.
  rewrite cache_entries_perm, <- list_fmap_compose. done.
Qed.

Lemma NoDup_cache_nonces m : NoDup (e_nonce <$> cache_entries m).
Proof. rewrite cache_entries_nonces. apply NoDup_fst_map_to_list. Qed.

Lemma cache_entries_sorted m :
  StronglySorted (λ a b, e_last_seen a ≤ e_last_seen b) (cache_entries m).
Proof.
  pose proof (sort_Sort_sorted E HE (to_entry <$> range_clients m)) as Hs.
  unfold sorted_by_last_seen in Hs. fold (cache_entries m) in Hs.
  assert (Sorted (λ a b, e_last_seen a ≤ e_last_seen b) (cache_entries m)) as Hs'.
  { eapply Sorted_weaken; [|exact Hs]. unfold Less. intros a b Hab. by apply Z.ltb_ge. }
  apply Sorted_StronglySorted; [|done]. intros a b c ??. lia.
Qed.

(** [Purge] within bounds removes the oldest entries. *)
Lemma Purge_purges_oldest count m :
  0 ≤ count ≤ Z.of_nat (size m) →
  purged_oldest m (delete_entries (take (Z.to_nat count) (cache_entries m)) m) count.
Proof.
  intros [H0 Hn]. rewrite delete_entries_keys.
  set (l := cache_entries m). set (k := Z.to_nat count).
  assert (length l = size m) as Hlen by apply length_cache_entries.
  split; [apply delete_keys_subseteq|]. split.
  - assert (size (foldl (λ m k, delete k m) m (e_nonce <$> take k l))
            + length (e_nonce <$> take k l) = size m)%nat as Hsz.
    { apply size_delete_keys.
      - rewrite fmap_take. apply (sublist_NoDup _ (e_nonce <$> l)).
        + apply NoDup_cache_nonces.
        + apply sublist_take.
      - intros n Hn'. apply list_elem_of_fmap in Hn' as (e & -> & He).
        apply subseteq_take in He. apply elem_of_cache_entries in He as (c & Hc & _).
        eauto. }
    rewrite length_fmap, length_take_le in Hsz by lia. lia.
  - intros n c n' c' Hm Hgone Hkept.
    rewrite lookup_delete_keys in Hgone, Hkept.
    destruct (decide (n' ∈ e_nonce <$> take k l)) as [?|Hn']; [done|].
    destruct (decide (n ∈ e_nonce <$> take k l)) as [Hn1|?]; [|congruence].
    apply list_elem_of_fmap in Hn1 as (e & -> & He).
    assert (e_last_seen e = last_seen c) as <-.
    { apply subseteq_take in He. apply elem_of_cache_entries in He as (c0 & Hc0 & ->).
      congruence. }
    assert (∃ e', e' ∈ drop k l ∧ e_nonce e' = n' ∧ e_last_seen e' = last_seen c')
      as (e' & He' & <- & <-).
    { assert ({| e_nonce := n'; e_last_seen := last_seen c' |} ∈ l) as Hin.
      { apply elem_of_cache_entries. eauto. }
      rewrite <- (take_drop k l) in Hin. apply elem_of_app in Hin as [Hin|Hin].
      - destruct Hn'. apply list_elem_of_fmap. eexists. split; [|exact Hin]. done.
      - eexists. split; [exact Hin|done]. }
    pose proof (cache_entries_sorted m) as Hs. fold l in Hs.
    rewrite <- (take_drop k l) in Hs. apply StronglySorted_app in Hs as (Hs & _ & _).
    by apply Hs.
Qed.

End contracts.

Lemma bind_returned {A B} (m : M A) (f : A → M B) da a da' tr :
  m da = mkRun (Return a) da' tr → bind m f da = prepend tr (f a da').
Proof. intros Hm. unfold bind. rewrite Hm. reflexivity. Qed.

Lemma bind_panicked {A B} (m : M A) (f : A → M B) da msg da' tr :
  m da = mkRun (Panic msg) da' tr → bind m f da = mkRun (Panic msg) da' tr.
Proof. intros Hm. unfold bind. rewrite Hm. reflexivity. Qed.

Lemma bind_emit {B} (e : event) (f : unit → M B) da :
  bind (emit e) f da = prepend [e] (f tt da).
Proof. reflexivity. Qed.

Lemma bind_get_da {B} (f : DigestAuth → M B) da :
  bind get_da f da = prepend [] (f da da).
Proof. reflexivity. Qed.

Lemma bind_clients_len {B} (f : Z → M B) da :
  bind clients_len f da = prepend [EvLen] (f (Z.of_nat (size (clients da))) da).
Proof. reflexivity. Qed.

Lemma bind_clients_insert {B} nonce c (f : unit → M B) da :
  bind (clients_insert nonce c) f da =
    prepend [EvInsert nonce] (f tt (set_clients da (<[nonce := c]> (clients da)))).
Proof. reflexivity. Qed.

Ltac run_steps :=
  unfold mutex_Lock, mutex_Unlock, mutex_RLock, mutex_RUnlock;
  repeat first [rewrite bind_emit | rewrite bind_get_da | rewrite bind_clients_len
               | rewrite bind_clients_insert].

Ltac run_done :=
  unfold prepend, ret, emit; cbn [result final trace app]; try reflexivity.

(** The run of [RequireAuth] when the cache is within its bound: the nonce
    is registered, nothing is purged. *)
Lemma RequireAuth_within nonce now da :
  Z.of_nat (size (clients da)) ≤ int_wrap (ClientCacheSize da + ClientCacheTolerance da) →
  RequireAuth nonce now da =
    mkRun (Return (unauthorized da nonce))
          (set_clients da (<[nonce := fresh_client now]> (clients da)))
          [EvRLock; EvLen; EvRUnlock; EvLock; EvInsert nonce; EvUnlock; EvRLock; EvRUnlock].
Proof.
  intros Hle. apply Z.ltb_ge in Hle.
  unfold RequireAuth. run_steps. rewrite Hle. run_steps. run_done.
Qed.

(** The run of [RequireAuth] when the cache is over its bound and the
    number of entries to purge is within the cache: they are deleted, then
    the nonce is registered. *)
Lemma RequireAuth_purging nonce now da :
  int_wrap (ClientCacheSize da + ClientCacheTolerance da) < Z.of_nat (size (clients da)) →
  0 ≤ int_wrap (ClientCacheTolerance da * 2)
    ≤ Z.of_nat (length (cache_entries (clients da))) →
  let oldest := take (Z.to_nat (int_wrap (ClientCacheTolerance da * 2)))
                     (cache_entries (clients da)) in
  RequireAuth nonce now da =
    mkRun (Return (unauthorized da nonce))
          (set_clients da (<[nonce := fresh_client now]> (delete_entries oldest (clients da))))
          ([EvRLock; EvLen; EvRUnlock; EvLock; EvRange] ++
           ((λ e, EvDelete (e_nonce e)) <$> oldest) ++
           [EvUnlock; EvLock; EvInsert nonce; EvUnlock; EvRLock; EvRUnlock]).
Proof.
  intros Hlt Hc oldest. apply Z.ltb_lt in Hlt.
  unfold RequireAuth. run_steps. rewrite Hlt.
  erewrite bind_returned; cycle 1.
  { run_steps. rewrite (Purge_in_bounds _ da Hc). fold oldest. run_done. }
  run_steps. run_done. f_equal. rewrite <- !app_assoc. reflexivity.
Qed.

(** The run of [RequireAuth] when the cache is over its bound and the
    number of entries to purge is not within the cache: [Purge] panics,
    holding the exclusive lock, and no nonce is registered. *)
Lemma RequireAuth_panicking nonce now da :
  int_wrap (ClientCacheSize da + ClientCacheTolerance da) < Z.of_nat (size (clients da)) →
  int_wrap (ClientCacheTolerance da * 2) < 0 ∨
  Z.of_nat (length (cache_entries (clients da))) < int_wrap (ClientCacheTolerance da * 2) →
  RequireAuth nonce now da =
    mkRun (Panic "slice bounds out of range") da
          [EvRLock; EvLen; EvRUnlock; EvLock; EvRange].
Proof.
  intros Hlt Hc. apply Z.ltb_lt in Hlt.
  unfold RequireAuth. run_steps. rewrite Hlt.
  erewrite bind_panicked; cycle 1.
  { run_steps. rewrite (Purge_out_of_bounds _ da Hc). run_done. }
  run_done.
Qed.

Lemma sessions_fst l : (sessions l).*1 = l.*1.
Proof. unfold sessions. rewrite <- list_fmap_compose. done. Qed.

(** Challenges issued while the cache stays within its bound are all
    registered. *)
Lemma issue_all_within l da :
  int_wrap (ClientCacheSize da + ClientCacheTolerance da)
    = ClientCacheSize da + ClientCacheTolerance da →
  NoDup l.*1 →
  (∀ n, n ∈ l.*1 → clients da !! n = None) →
  Z.of_nat (size (clients da)) + Z.of_nat (length l)
    ≤ ClientCacheSize da + ClientCacheTolerance da + 1 →
  result (issue_all l da) = Return tt ∧
  final (issue_all l da) = set_clients da (list_to_map (sessions l) ∪ clients da).
Proof.
  revert da. induction l as [|[n t] l IH]; intros da Hw Hnd Hfresh Hsz.
  { simpl. split; [done|]. rewrite (left_id_L ∅ (∪)). by rewrite set_clients_id. }
  simpl in Hnd. apply NoDup_cons in Hnd as [Hn Hnd].
  simpl in Hsz.
  change (issue_all ((n, t) :: l)) with (bind (RequireAuth n t) (λ _, issue_all l)).
  unfold bind. rewrite RequireAuth_within by lia. cbn [result final trace].
  set (da1 := set_clients da (<[n := fresh_client t]> (clients da))).
  assert (clients da !! n = None) as Hnone by (apply Hfresh; by left).
  destruct (IH da1) as [IHr IHf]; [done|done| | |].
  { intros n' Hn'. simpl. rewrite lookup_insert_ne; [apply Hfresh; by right|].
    intros ->. done. }
  { simpl. rewrite map_size_insert_None by done. lia. }
  rewrite IHr, IHf. split; [done|]. unfold da1, set_clients. simpl. f_equal.
  rewrite <- insert_union_l, <- insert_union_r; [done|].
  apply not_elem_of_list_to_map_1. by rewrite sessions_fst.
Qed.

Lemma delete_entries_take (l1 l2 : list (string * digest_client)) :
  NoDup (l1 ++ l2).*1 →
  delete_entries (to_entry <$> l1) (list_to_map (l1 ++ l2)) = list_to_map l2.
Proof.
  induction l1 as [|[k c] l1 IH]; intros Hnd; [done|].
  simpl in Hnd. apply NoDup_cons in Hnd as [Hk Hnd].
  unfold delete_entries. simpl. rewrite delete_insert_eq, delete_id.
  - by apply IH.
  - by apply not_elem_of_list_to_map_1.
Qed.

Section bounds.
Hypothesis HE : GoContracts E.

(** With times strictly increasing, the sorted slice of [Purge] lists the
    sessions in the order of their issue. *)
Lemma cache_entries_issued (l : list (string * Z)) :
  NoDup l.*1 → issued_in_order l →
  cache_entries (list_to_map (sessions l)) = to_entry <$> sessions l.
Proof.
  intros Hnd Hord.
  assert (cache_entries (list_to_map (sessions l)) ≡ₚ to_entry <$> sessions l) as Hperm.
  { rewrite (cache_entries_perm HE). apply fmap_Permutation, map_to_list_to_map.
    by rewrite sessions_fst. }
  apply (StronglySorted_unique_strong (λ a b, e_last_seen a ≤ e_last_seen b)).
  - intros x1 x2 Hx1 Hx2 H12 H21. rewrite Hperm in Hx1.
    assert (e_last_seen x1 = e_last_seen x2) as Heq by lia. clear H12 H21 Hperm.
    unfold sessions in Hx1, Hx2. rewrite <- list_fmap_compose in Hx1, Hx2.
    apply list_elem_of_fmap in Hx1 as (p1 & -> & Hp1).
    apply list_elem_of_fmap in Hx2 as (p2 & -> & Hp2).
    simpl in Heq. unfold issued_in_order in Hord.
    induction Hord as [|p l Hl IH Hall].
    + by apply elem_of_nil in Hp1.
    + simpl in Hnd. apply NoDup_cons in Hnd as [_ Hnd].
      rewrite Forall_forall in Hall.
      apply elem_of_cons in Hp1 as [->|Hp1]; apply elem_of_cons in Hp2 as [->|Hp2].
      * done.
      * specialize (Hall _ Hp2). lia.
      * specialize (Hall _ Hp1). lia.
      * by apply IH.
  - apply (cache_entries_sorted HE).
  - unfold sessions. rewrite <- list_fmap_compose.
    eapply StronglySorted_fmap; [|exact Hord]. intros x y Hxy.
    unfold compose, to_entry. simpl in *. lia.
  - done.
Qed.

Lemma int_wrap_id z : - 2 ^ 63 ≤ z < 2 ^ 63 → int_wrap z = z.
Proof. intros Hz. unfold int_wrap. rewrite Z.mod_small; lia. Qed.

(** C3 (no fault), what the code does.  [Purge(count)] with [count] above
    the number of cached sessions panics at [cache[:count]]: nothing is
    deleted and the exclusive lock is not released.  So does
    [RequireAuth] when the cache is over its bound and twice the tolerance
    is more than the number of cached sessions. *)
Theorem Purge_beyond_cache_panics da count nonce now :
  Z.of_nat (size (clients da)) < count →
  Purge count da = mkRun (Panic "slice bounds out of range") da [EvLock; EvRange] ∧
  (int_wrap (ClientCacheSize da + ClientCacheTolerance da) < Z.of_nat (size (clients da)) →
   int_wrap (ClientCacheTolerance da * 2) = count →
   RequireAuth nonce now da =
     mkRun (Panic "slice bounds out of range") da
           [EvRLock; EvLen; EvRUnlock; EvLock; EvRange]).
Proof.
  intros Hcount. split.
  - apply Purge_out_of_bounds. right. by rewrite (length_cache_entries HE).
  - intros Hover <-. apply RequireAuth_panicking; [done|].
    right. by rewrite (length_cache_entries HE).
Qed.

(** [Purge(count)] returns when [count] is within the cache. *)
Lemma Purge_returns da count :
  0 ≤ count ≤ Z.of_nat (size (clients da)) →
  result (Purge count da) = Return tt ∧
  purged_oldest (clients da) (clients (final (Purge count da))) count.
Proof.
  intros Hc. rewrite Purge_in_bounds by (by rewrite (length_cache_entries HE)).
  split; [done|]. simpl. by apply (Purge_purges_oldest HE).
Qed.

(** One challenge, from any cache, the sizes being in range. *)
Lemma RequireAuth_step da nonce now :
  sizes_in_range da →
  (Z.of_nat (size (clients da)) ≤ ClientCacheSize da + ClientCacheTolerance da →
   result (RequireAuth nonce now da) = Return (unauthorized da nonce) ∧
   clients (final (RequireAuth nonce now da)) = <[nonce := fresh_client now]> (clients da)) ∧
  (ClientCacheSize da + ClientCacheTolerance da < Z.of_nat (size (clients da)) →
   2 * ClientCacheTolerance da ≤ Z.of_nat (size (clients da)) →
   ∃ m', purged_oldest (clients da) m' (2 * ClientCacheTolerance da) ∧
         result (RequireAuth nonce now da) = Return (unauthorized da nonce) ∧
         clients (final (RequireAuth nonce now da)) = <[nonce := fresh_client now]> m').
Proof.
  intros (HS & HT & HST & HTT).
  assert (int_wrap (ClientCacheSize da + ClientCacheTolerance da)
          = ClientCacheSize da + ClientCacheTolerance da) as Hw1
    by (apply int_wrap_id; lia).
  assert (int_wrap (ClientCacheTolerance da * 2) = 2 * ClientCacheTolerance da) as Hw2
    by (rewrite int_wrap_id; lia).
  split.
  - intros Hle. rewrite RequireAuth_within by lia. done.
  - intros Hlt Hle.
    rewrite RequireAuth_purging by (rewrite ?(length_cache_entries HE); lia).
    eexists. split; [|done]. rewrite Hw2.
    apply (Purge_purges_oldest HE). lia.
Qed.

(** The challenge that follows [size + tolerance + 1] challenges issued
    from an empty cache at increasing times and never used. *)
Lemma RequireAuth_after_overflow da issued nonce now :
  sizes_in_range da →
  clients da = ∅ →
  ClientCacheTolerance da ≤ ClientCacheSize da + 1 →
  Z.of_nat (length issued) = ClientCacheSize da + ClientCacheTolerance da + 1 →
  NoDup issued.*1 → nonce ∉ issued.*1 → issued_in_order issued →
  let before := final (issue_all issued da) in
  let run := RequireAuth nonce now before in
  result (issue_all issued da) = Return tt ∧
  clients before = list_to_map (sessions issued) ∧
  Z.of_nat (size (clients before)) = ClientCacheSize da + ClientCacheTolerance da + 1 ∧
  result run = Return (unauthorized da nonce) ∧
  clients (final run) =
    <[nonce := fresh_client now]>
      (list_to_map (sessions (drop (Z.to_nat (2 * ClientCacheTolerance da)) issued))) ∧
  Z.of_nat (size (clients (final run))) = ClientCacheSize da - ClientCacheTolerance da + 2.
Proof.
  intros Hrange Hempty HTS Hlen Hnd Hnonce Hord before run.
  pose proof Hrange as (HS & HT & HST & HTT).
  assert (int_wrap (ClientCacheSize da + ClientCacheTolerance da)
          = ClientCacheSize da + ClientCacheTolerance da) as Hw1
    by (apply int_wrap_id; lia).
  assert (int_wrap (ClientCacheTolerance da * 2) = 2 * ClientCacheTolerance da) as Hw2
    by (rewrite int_wrap_id; lia).
  destruct (issue_all_within issued da Hw1 Hnd) as [Hres Hfin].
  { intros n _. by rewrite Hempty, lookup_empty. }
  { rewrite Hempty, map_size_empty. lia. }
  rewrite Hempty, (right_id_L ∅ (∪)) in Hfin.
  assert (NoDup (sessions issued).*1) as Hnd' by (by rewrite sessions_fst).
  assert (Z.of_nat (size (list_to_map (sessions issued) : gmap string digest_client))
          = ClientCacheSize da + ClientCacheTolerance da + 1) as Hsize.
  { rewrite map_size_list_to_map by done. unfold sessions. by rewrite length_fmap. }
  set (k := Z.to_nat (2 * ClientCacheTolerance da)).
  assert (run = mkRun (Return (unauthorized da nonce))
            (set_clients da (<[nonce := fresh_client now]>
               (list_to_map (sessions (drop k issued)))))
            ([EvRLock; EvLen; EvRUnlock; EvLock; EvRange] ++
             ((λ e, EvDelete (e_nonce e)) <$> take k (to_entry <$> sessions issued)) ++
             [EvUnlock; EvLock; EvInsert nonce; EvUnlock; EvRLock; EvRUnlock])) as Hrun.
  { unfold run, before. rewrite Hfin.
    rewrite RequireAuth_purging; simpl;
      rewrite ?(length_cache_entries HE), ?Hw1, ?Hw2; [|lia..].
    rewrite (cache_entries_issued issued Hnd Hord). fold k.
    f_equal. unfold set_clients. simpl. f_equal. f_equal.
    rewrite <- fmap_take.
    rewrite <- (take_drop k (sessions issued)) at 2.
    rewrite delete_entries_take by (by rewrite take_drop).
    unfold sessions. by rewrite fmap_drop. }
  split; [done|]. split; [unfold before; by rewrite Hfin|].
  split; [unfold before; by rewrite Hfin|].
  rewrite Hrun. cbn [result final trace clients set_clients].
  split; [done|]. split; [done|].
  assert (NoDup (sessions (drop k issued)).*1) as Hnd''.
  { rewrite sessions_fst, fmap_drop. eapply sublist_NoDup; [exact Hnd|apply sublist_drop]. }
  rewrite map_size_insert_None.
  - rewrite map_size_list_to_map by done. unfold sessions.
    rewrite length_fmap, length_drop. unfold k. lia.
  - apply not_elem_of_list_to_map_1. rewrite sessions_fst, fmap_drop.
    intros Hin. apply Hnonce. by apply subseteq_drop in Hin.
Qed.

(** C6 (cache bound), as amended.  The sizes being in range: a challenge
    issued while the cache has at most [size + tolerance] sessions registers
    its nonce and purges nothing; one issued while it has more, and at least
    [2 * tolerance] of them, first deletes [2 * tolerance] sessions, none
    seen later than one that stays, then registers its nonce.  With
    [1 <= tolerance <= size + 1], after [size + tolerance + 1] challenges
    issued from an empty cache with distinct nonces at increasing times and
    never used, the next challenge deletes the [2 * tolerance] first issued
    sessions and keeps the others with its own: [size - tolerance + 2]
    sessions, which is below the [size + tolerance + 1] there were and at
    most the bound [size + tolerance], and below it when the tolerance is
    at least 2. *)
Theorem challenge_issuance_bound :
  (∀ da nonce now, sizes_in_range da →
     (Z.of_nat (size (clients da)) ≤ ClientCacheSize da + ClientCacheTolerance da →
      result (RequireAuth nonce now da) = Return (unauthorized da nonce) ∧
      clients (final (RequireAuth nonce now da))
        = <[nonce := fresh_client now]> (clients da)) ∧
     (ClientCacheSize da + ClientCacheTolerance da < Z.of_nat (size (clients da)) →
      2 * ClientCacheTolerance da ≤ Z.of_nat (size (clients da)) →
      ∃ m', purged_oldest (clients da) m' (2 * ClientCacheTolerance da) ∧
            result (RequireAuth nonce now da) = Return (unauthorized da nonce) ∧
            clients (final (RequireAuth nonce now da)) = <[nonce := fresh_client now]> m')) ∧
  (∀ da issued nonce now,
     sizes_in_range da → clients da = ∅ →
     1 ≤ ClientCacheTolerance da ≤ ClientCacheSize da + 1 →
     Z.of_nat (length issued) = ClientCacheSize da + ClientCacheTolerance da + 1 →
     NoDup issued.*1 → nonce ∉ issued.*1 → issued_in_order issued →
     let before := final (issue_all issued da) in
     let run := RequireAuth nonce now before in
     result (issue_all issued da) = Return tt ∧
     Z.of_nat (size (clients before)) = ClientCacheSize da + ClientCacheTolerance da + 1 ∧
     result run = Return (unauthorized da nonce) ∧
     clients (final run) =
       <[nonce := fresh_client now]>
         (list_to_map (sessions (drop (Z.to_nat (2 * ClientCacheTolerance da)) issued))) ∧
     Z.of_nat (size (clients (final run)))
       = ClientCacheSize da - ClientCacheTolerance da + 2 ∧
     Z.of_nat (size (clients (final run))) < Z.of_nat (size (clients before)) ∧
     Z.of_nat (size (clients (final run))) ≤ ClientCacheSize da + ClientCacheTolerance da ∧
     (2 ≤ ClientCacheTolerance da →
      Z.of_nat (size (clients (final run))) < ClientCacheSize da + ClientCacheTolerance da)).
Proof.
  split.
  - intros da nonce now Hrange. by apply RequireAuth_step.
  - intros da issued nonce now Hrange Hempty [HT1 HTS] Hlen Hnd Hnonce Hord before run.
    destruct (RequireAuth_after_overflow da issued nonce now Hrange Hempty HTS Hlen
                Hnd Hnonce Hord) as (Hres & _ & Hsize & Hrun & Hfin & Hsize').
    fold before in Hsize. fold before run in Hrun, Hfin, Hsize'.
    do 5 (split; [done|]). split; [lia|]. split; [lia|]. lia.
Qed.

End bounds.

End cache.

(** ** Results: the locking discipline of the issuer *)

Section issuer_locking.
Context {E : Externals}.

Lemma disciplined_deletes (l : digest_cache) (tr : list event) :
  disciplined Exclusive (((λ e, EvDelete (e_nonce e)) <$> l) ++ tr)
  = disciplined Exclusive tr.
Proof. induction l as [|e l IH]; [done|]. simpl. exact IH. Qed.

(** [RequireAuth] (and [Purge] within it) reads the cache under a lock and
    writes to it under the exclusive lock only. *)
Lemma RequireAuth_disciplined nonce now da :
  disciplined Unlocked (trace (RequireAuth nonce now da)) = true.
Proof.
  destruct (Z_lt_le_dec (int_wrap (ClientCacheSize da + ClientCacheTolerance da))
                        (Z.of_nat (size (clients da)))) as [Hlt|Hle].
  - destruct (Z_lt_le_dec (int_wrap (ClientCacheTolerance da * 2)) 0) as [Hneg|Hpos].
    { rewrite RequireAuth_panicking by auto. done. }
    destruct (Z_lt_le_dec (Z.of_nat (length (cache_entries (clients da))))
                          (int_wrap (ClientCacheTolerance da * 2))) as [Hbig|Hok].
    { rewrite RequireAuth_panicking by auto. done. }
    rewrite RequireAuth_purging by auto. simpl.
    by rewrite disciplined_deletes.
  - rewrite RequireAuth_within by done. done.
Qed.

End issuer_locking.

(** ** Closed examples *)

Lemma demo_contracts : GoContracts demo.externals.
Proof.
  split.
  - done.
  - intros c. apply merge_sort_Permutation.
  - intros c.
    assert (Total demo.not_later) as Htotal.
    { intros a b. unfold demo.not_later, Less.
      destruct (Z_lt_le_dec (e_last_seen b) (e_last_seen a)) as [Hlt|Hle].
      - right. apply Z.ltb_ge. lia.
      - left. by apply Z.ltb_ge. }
    apply (Sorted_merge_sort demo.not_later).
Qed.

Lemma demo_well_formed nc_ :
  nc_ ∈ ["0"; "1"; "2"; "3"] →
  well_formed (E := demo.externals) demo.da1 (demo.req nc_) (demo.params (demo.req nc_)) demo.H.
Proof.
  intros Hin. repeat (apply elem_of_cons in Hin as [->|Hin]);
    [| | | |by apply elem_of_nil in Hin]; by split; vm_compute.
Qed.

Lemma demo_valid_response ignore nc_ n :
  (nc_, n) ∈ [("0", 0); ("1", 1); ("2", 2); ("3", 3)] →
  valid_response (E := demo.externals) (demo.authenticator 10 2 ignore demo.cache1)
                 (demo.req nc_) "alice" "n1" n.
Proof.
  intros Hin. exists (demo.params (demo.req nc_)), demo.H.
  assert (nc_ ∈ ["0"; "1"; "2"; "3"]) as Hnc.
  { apply (list_elem_of_fmap_2 fst) in Hin. exact Hin. }
  split.
  - destruct (demo_well_formed nc_ Hnc). by split.
  - repeat (apply elem_of_cons in Hin as [[= -> ->]|Hin]);
      [| | | |by apply elem_of_nil in Hin]; by vm_compute.
Qed.

(** The counters 1, 2, 3 and then 2 again for the nonce ["n1"], with
    replay protection. *)
Lemma counter_monotonicity_witness :
  clients demo.da1 !! "n1" = Some {| nc := 0; last_seen := 5 |} ∧
  let run1 := CheckAuth (E := demo.externals) (demo.req "1") 101 demo.da1 in
  let run2 := CheckAuth (E := demo.externals) (demo.req "2") 102 (final run1) in
  let run3 := CheckAuth (E := demo.externals) (demo.req "3") 103 (final run2) in
  let run4 := CheckAuth (E := demo.externals) (demo.req "2") 104 (final run3) in
  accepts run1 "alice" ∧ stored_counter (final run1) "n1" = Some 1 ∧
  accepts run2 "alice" ∧ stored_counter (final run2) "n1" = Some 2 ∧
  accepts run3 "alice" ∧ stored_counter (final run3) "n1" = Some 3 ∧
  rejects run4 (final run3).
Proof.
  split; [reflexivity|].
  apply (counter_monotonicity (E := demo.externals) demo.da1
           (demo.req "1") (demo.req "2") (demo.req "3") (demo.req "2")
           "alice" "n1" 5 101 102 103 104).
  - reflexivity.
  - apply (demo_valid_response false "1" 1). apply (bool_decide_unpack _). by vm_compute.
  - apply (demo_valid_response false "2" 2). apply (bool_decide_unpack _). by vm_compute.
  - apply (demo_valid_response false "3" 3). apply (bool_decide_unpack _). by vm_compute.
  - apply (demo_valid_response false "2" 2). apply (bool_decide_unpack _). by vm_compute.
Defined.

(** The request with nc ["0"] for the unused nonce ["n1"], three times. *)
Lemma zero_counter_accepted_again_witness :
  clients demo.da1 !! "n1" = Some {| nc := 0; last_seen := 5 |} ∧
  length (CheckAuth_repeat (E := demo.externals) (demo.req "0") [101; 102; 103] demo.da1) = 3%nat ∧
  Forall (λ run, accepts run "alice" ∧ stored_counter (final run) "n1" = Some 0)
         (CheckAuth_repeat (E := demo.externals) (demo.req "0") [101; 102; 103] demo.da1).
Proof.
  split; [reflexivity|].
  apply (zero_counter_accepted_again (E := demo.externals) demo.da1 (demo.req "0")
           "alice" "n1" 5 [101; 102; 103]).
  - reflexivity.
  - apply (demo_valid_response false "0" 0). apply (bool_decide_unpack _). by vm_compute.
Defined.

(** [Purge(4)] on a cache of three sessions, and the challenge that calls
    it: size 0, tolerance 2. *)
Lemma Purge_beyond_cache_panics_witness :
  Z.of_nat (size (clients demo.da_small)) < 4 ∧
  Purge (E := demo.externals) 4 demo.da_small =
    mkRun (Panic "slice bounds out of range") demo.da_small [EvLock; EvRange] ∧
  RequireAuth (E := demo.externals) "n4" 4 demo.da_small =
    mkRun (Panic "slice bounds out of range") demo.da_small
          [EvRLock; EvLen; EvRUnlock; EvLock; EvRange].
Proof.
  assert (Z.of_nat (size (clients demo.da_small)) < 4) as Hlt by (vm_compute; reflexivity).
  split; [exact Hlt|].
  destruct (Purge_beyond_cache_panics (E := demo.externals) demo_contracts
              demo.da_small 4 "n4" 4 Hlt) as [HP HR].
  split; [exact HP|]. apply HR; vm_compute; reflexivity.
Defined.

(** The accepted request of alice: its two updates are made between
    [RLock] and [RUnlock]. *)
Lemma CheckAuth_writes_under_shared_lock_witness :
  ∃ info nonce,
    result (CheckAuth (E := demo.externals) (demo.req "1") 101 demo.da1)
      = Return ("alice", Some info) ∧
    trace (CheckAuth (E := demo.externals) (demo.req "1") 101 demo.da1) =
      [EvRLock; EvLookup nonce; EvUpdate nonce; EvUpdate nonce; EvRUnlock] ∧
    disciplined Unlocked (trace (CheckAuth (E := demo.externals) (demo.req "1") 101 demo.da1))
      = false.
Proof.
  assert (∃ info, result (CheckAuth (E := demo.externals) (demo.req "1") 101 demo.da1)
                  = Return ("alice", Some info)) as [info Hres].
  { eexists. vm_compute. reflexivity. }
  destruct (CheckAuth_writes_under_shared_lock (E := demo.externals) demo.da1
              (demo.req "1") 101 "alice" info Hres) as (nonce & Htr & _ & Hd & _).
  exists info, nonce. split; [exact Hres|]. split; [exact Htr|exact Hd].
Defined.

(** Five challenges from the empty cache of size 2 and tolerance 2, then a
    sixth: the four oldest sessions go, ["n5"] and ["n6"] stay. *)
Lemma challenge_issuance_bound_witness :
  let before := final (issue_all (E := demo.externals) demo.issued5 demo.da_empty) in
  let run := RequireAuth (E := demo.externals) "n6" 6 before in
  Z.of_nat (size (clients before)) = 5 ∧
  clients (final run) = <["n6" := fresh_client 6]> {[ "n5" := fresh_client 5 ]} ∧
  Z.of_nat (size (clients (final run))) = 2.
Proof.
  destruct (challenge_issuance_bound (E := demo.externals) demo_contracts) as [_ Hscenario].
  destruct (Hscenario demo.da_empty demo.issued5 "n6" 6)
    as (_ & Hbefore & _ & Hfinal & Hsize & _).
  - repeat split; vm_compute; congruence.
  - reflexivity.
  - split; vm_compute; congruence.
  - reflexivity.
  - apply (bool_decide_unpack _). by vm_compute.
  - apply (bool_decide_unpack _). by vm_compute.
  - repeat constructor.
  - split; [exact Hbefore|]. split; [exact Hfinal|exact Hsize].
Defined.

(** The request of alice with nc ["1"] for the unused nonce ["n1"]. *)
Lemma round_trip_witness :
  accepts (CheckAuth (E := demo.externals) (demo.req "1") 101 demo.da1) "alice" ∧
  clients (final (CheckAuth (E := demo.externals) (demo.req "1") 101 demo.da1)) !! "n1"
    = Some {| nc := 1; last_seen := 101 |}.
Proof.
  apply (round_trip (E := demo.externals) demo.da1 (demo.req "1") 101
           (demo.params (demo.req "1")) demo.H (fresh_client 5) 1);
    by vm_compute.
Defined.

(** The request of alice with another opaque than the configured one. *)
Lemma opaque_qop_gating_witness :
  param (demo.raw_params demo.req_bad_opaque) "opaque" ≠ Opaque demo.da1 ∧
  rejects (CheckAuth (E := demo.externals) demo.req_bad_opaque 101 demo.da1) demo.da1.
Proof.
  assert (param (demo.raw_params demo.req_bad_opaque) "opaque" ≠ Opaque demo.da1) as Hne.
  { vm_compute. discriminate. }
  split; [exact Hne|].
  apply (opaque_qop_gating (E := demo.externals) demo.da1 demo.req_bad_opaque 101).
  intros auth Hp. left.
  assert (auth = demo.raw_params demo.req_bad_opaque) as ->; [|exact Hne].
  unfold demo.raw_params.
  change (Header_Get demo.req_bad_opaque "Authorization")
    with (Header_Get demo.req_bad_opaque (Authorization (HeadersV demo.da1))).
  by rewrite Hp.
Defined.

(** The authinfo of the accepted request of alice. *)
Lemma confirmation_format_witness :
  ∃ info,
    result (CheckAuth (E := demo.externals) (demo.req "1") 101 demo.da1)
      = Return ("alice", Some info) ∧
    info = "qop=" +:+ quoted "auth" +:+ ", rspauth=" +:+
           quoted (demo.H ("s3:n1:1:c:auth:" +:+ demo.H ":/api")) +:+
           ", cnonce=" +:+ quoted "c" +:+ ", nc=" +:+ quoted "1".
Proof.
  assert (∃ info, result (CheckAuth (E := demo.externals) (demo.req "1") 101 demo.da1)
                  = Return ("alice", Some info)) as [info Hres].
  { eexists. vm_compute. reflexivity. }
  exists info. split; [exact Hres|].
  destruct (confirmation_format (E := demo.externals) demo.da1 (demo.req "1") 101
              "alice" info Hres) as (auth & H & Hp & Ha & _ & Hinfo).
  assert (auth = demo.params (demo.req "1")) as ->.
  { unfold demo.params. by rewrite Hp. }
  assert (Some demo.H = Some H) as [= <-].
  { rewrite <- Ha. by vm_compute. }
  rewrite Hinfo. vm_compute. reflexivity.
Defined.


(** C6, the claim as stated fails.  With size 1 and tolerance 0, after
    [1 + 0 + 1] challenges the next one finds the cache over its bound and
    purges no session: the cache goes from 2 to 3 sessions, over the bound
    of 1. *)
Lemma zero_tolerance_purges_nothing :
  let da := demo.da_zero_tolerance in
  let before := final (issue_all (E := demo.externals) [("n1", 1); ("n2", 2)] da) in
  let run := RequireAuth (E := demo.externals) "n3" 3 before in
  Z.of_nat (size (clients before)) = ClientCacheSize da + ClientCacheTolerance da + 1 ∧
  ¬ (Z.of_nat (size (clients (final run)))
       < ClientCacheSize da + ClientCacheTolerance da) ∧
  ¬ (Z.of_nat (size (clients (final run))) < Z.of_nat (size (clients before))).
Proof.
  intros da before run.
  assert (Z.of_nat (size (clients before)) = 2) as -> by (by vm_compute).
  assert (Z.of_nat (size (clients (final run))) = 3) as -> by (by vm_compute).
  vm_compute. split; [done|]. split; intros [=].
Qed.

(** The request without username, through the handler of [Wrap]: it is
    answered with a new challenge, and the session of ["n1"] has moved. *)
Lemma anonymous_request_challenged :
  ∃ w, result (Wrap_handler (E := demo.externals) demo.req_anonymous 101 "n2" 102 demo.da1)
         = Return (Challenged w) ∧
       clients (final (Wrap_handler (E := demo.externals) demo.req_anonymous 101 "n2" 102
                         demo.da1)) !! "n1"
         = Some {| nc := 1; last_seen := 101 |}.
Proof. eexists. split; by vm_compute. Qed.

(** The uri check with the URLs of the examples: for the request path
    [/api/sub/resource], the uri [/api] passes and the uri [/other] does
    not. *)
Lemma uri_prefix_examples :
  let r := demo.request "/api/sub/resource" "alice" "s3" "/api" "n1" "1" "c" "op" "auth" in
  uri_matches (E := demo.externals) r "/api" = true ∧
  uri_matches (E := demo.externals) r "/other" = false ∧
  accepts (CheckAuth (E := demo.externals) r 101 demo.da1) "alice".
Proof. split; [|split]; [by vm_compute..|]. eexists. by vm_compute. Qed.

(** The counters 1, 2, 3 and then 2 again for the nonce ["n1"], without
    replay protection: the fourth request is accepted and the stored
    counter goes back to 2. *)
Lemma replay_accepted_when_ignoring :
  let run1 := CheckAuth (E := demo.externals) (demo.req "1") 101 demo.da1_ignoring in
  let run2 := CheckAuth (E := demo.externals) (demo.req "2") 102 (final run1) in
  let run3 := CheckAuth (E := demo.externals) (demo.req "3") 103 (final run2) in
  let run4 := CheckAuth (E := demo.externals) (demo.req "2") 104 (final run3) in
  stored_counter (final run3) "n1" = Some 3 ∧
  accepts run4 "alice" ∧ stored_counter (final run4) "n1" = Some 2.
Proof. split; [by vm_compute|]. split; [eexists|]; by vm_compute. Qed.

(** ** Results: the header and the counter of a request *)

Section header_and_counter.
Context {E : Externals}.

Lemma cut_space_Some s a b :
  cut_space s = Some (a, b) → s = a +:+ " " +:+ b.
Proof.
  revert a b. induction s as [|c s IH]; intros a b; simpl; [done|].
  destruct (Ascii.eqb c " ") eqn:Hc.
  - apply Ascii.eqb_eq in Hc as ->. intros [= <- <-]. reflexivity.
  - destruct (cut_space s) as [[a' b']|]; [|done].
    intros [= <- <-]. rewrite append_cons. f_equal. by apply IH.
Qed.

Lemma DigestAuthParams_spec (authorization : string) (auth : gmap string string) :
  DigestAuthParams authorization = Some auth ↔
  ∃ rest, authorization = "Digest " +:+ rest ∧ ParsePairs rest = Some auth.
Proof.
  unfold DigestAuthParams, strings_SplitN2. split.
  - destruct (cut_space authorization) as [[s0 s1]|] eqn:Hcut; [|done].
    case_bool_decide as Hs0; [|done]. intros Hp. exists s1.
    split; [|done]. apply cut_space_Some in Hcut. by rewrite Hcut, Hs0.
  - intros (rest & -> & Hp).
    change (cut_space ("Digest " +:+ rest)) with (Some ("Digest", rest)).
    done.
Qed.

(** X1.  The header gives parameters exactly when it is [Digest], one
    space, and a text from which [ParsePairs] makes a map: the scheme is
    compared as it is written, and the text starts after the first space. *)
Theorem DigestAuthParams_iff (authorization : string) (auth : gmap string string) :
  DigestAuthParams authorization = Some auth ↔
  ∃ rest, authorization = "Digest " +:+ rest ∧ ParsePairs rest = Some auth.
Proof. apply DigestAuthParams_spec. Qed.

Lemma run_eta {A} (run : Run A) : run = mkRun (result run) (final run) (trace run).
Proof. by destruct run. Qed.

(** The run of a request that fails a check made before the cache is looked
    at. *)
Lemma CheckAuth_ill_formed da r now :
  (∀ auth H, ¬ well_formed da r auth H) →
  CheckAuth r now da = mkRun (Return Rejected) da [EvRLock; EvRUnlock].
Proof.
  intros Hill.
  destruct (CheckAuth_inv da r now)
    as [[[Hrej Hfin] Htr]|(auth & H & _ & _ & Hwf & _)]; [|by destruct (Hill auth H)].
  destruct Htr as [Htr|(auth & H & Hwf & _)]; [|by destruct (Hill auth H)].
  rewrite (run_eta (CheckAuth r now da)). by rewrite Hrej, Hfin, Htr.
Qed.

Lemma well_formed_params da r auth H auth' H' :
  well_formed da r auth H → well_formed da r auth' H' → auth' = auth ∧ H' = H.
Proof.
  intros [Hp _ _ Ha _ _] [Hp' _ _ Ha' _ _].
  assert (auth' = auth) as -> by congruence. split; [done|congruence].
Qed.

(** The run of a well-formed request whose nc does not read as a 64 bit
    number in base 16. *)
Lemma CheckAuth_bad_nc da r now auth H :
  well_formed da r auth H →
  ParseUint16 (param auth "nc") = None →
  CheckAuth r now da = mkRun (Return Rejected) da [EvRLock; EvRUnlock].
Proof.
  intros Hwf Hnc.
  destruct (CheckAuth_inv da r now)
    as [[[Hrej Hfin] Htr]|(auth' & H' & n & _ & Hwf' & Hn & _)].
  - destruct Hwf as [Hp Ho Hq Ha Hu Hr]. unfold request_params in Hp.
    clear Hrej Hfin Htr.
    unfold CheckAuth, defer, bind, mutex_RLock, mutex_RUnlock, emit, get_da. simpl.
    destruct (DigestAuthParams _) as [auth0|]; [|done].
    simpl in Hp. injection Hp as ->.
    rewrite Ho, Hq. rewrite !bool_decide_eq_false_2 by (intros ?; congruence). simpl.
    rewrite Ha, Hu. simpl.
    unfold ConstantTimeCompare. rewrite <- Hr, bool_decide_eq_true_2 by done. simpl.
    by rewrite Hnc.
  - destruct (well_formed_params _ _ _ _ _ _ Hwf Hwf') as [-> _]. congruence.
Qed.

(** The run of a well-formed request for a nonce that is not in the cache. *)
Lemma CheckAuth_no_session da r now auth H n :
  well_formed da r auth H →
  ParseUint16 (param auth "nc") = Some n →
  clients da !! param auth "nonce" = None →
  CheckAuth r now da =
    mkRun (Return Rejected) da [EvRLock; EvLookup (param auth "nonce"); EvRUnlock].
Proof.
  intros [Hp Ho Hq Ha Hu Hr] Hn Hc.
  unfold request_params in Hp.
  unfold CheckAuth, defer, bind, mutex_RLock, mutex_RUnlock, emit, get_da. simpl.
  destruct (DigestAuthParams _) as [auth0|]; [|done].
  simpl in Hp. injection Hp as ->.
  rewrite Ho, Hq. rewrite !bool_decide_eq_false_2 by (intros ?; congruence). simpl.
  rewrite Ha, Hu. simpl.
  unfold ConstantTimeCompare. rewrite <- Hr, bool_decide_eq_true_2 by done. simpl.
  rewrite Hn. unfold clients_lookup, bind, emit, get_da, ret. simpl. by rewrite Hc.
Qed.

Lemma well_formed_or_not da r :
  (∃ auth H, well_formed da r auth H) ∨ (∀ auth H, ¬ well_formed da r auth H).
Proof.
  destruct (request_params da r) as [auth|] eqn:Hp.
  2: { right. intros auth H [Hp' _ _ _ _ _]. congruence. }
  destruct (algorithms !! strings_ToUpper (param auth "algorithm")) as [H|] eqn:Ha.
  2: { right. intros auth' H [Hp' _ _ Ha' _ _]. congruence. }
  destruct (decide (param auth "opaque" = Opaque da)) as [Ho|Ho].
  2: { right. intros auth' H' [Hp' Ho' _ _ _ _]. congruence. }
  destruct (decide (param auth "qop" = "auth")) as [Hq|Hq].
  2: { right. intros auth' H' [Hp' _ Hq' _ _ _]. congruence. }
  destruct (uri_matches r (param auth "uri")) eqn:Hu.
  2: { right. intros auth' H' [Hp' _ _ _ Hu' _]. congruence. }
  destruct (decide (param auth "response" = compute_KD H (compute_HA1 da H auth) r auth))
    as [Hr|Hr].
  2: { right. intros auth' H' [Hp' _ _ Ha' _ Hr']. destruct Hr. congruence. }
  left. exists auth, H. by split.
Qed.

(** Every run of [CheckAuth] is one of five. *)
Lemma CheckAuth_runs da r now :
  CheckAuth r now da = mkRun (Return Rejected) da [EvRLock; EvRUnlock] ∨
  ∃ auth H n, well_formed da r auth H ∧ ParseUint16 (param auth "nc") = Some n ∧
    let nonce := param auth "nonce" in
    (clients da !! nonce = None ∧
     CheckAuth r now da = mkRun (Return Rejected) da [EvRLock; EvLookup nonce; EvRUnlock]) ∨
    (∃ client, clients da !! nonce = Some client ∧
       nc client ≠ 0 ∧ n ≤ nc client ∧ IgnoreNonceCount da = false ∧
       CheckAuth r now da = mkRun (Return Rejected) da [EvRLock; EvLookup nonce; EvRUnlock]) ∨
    (∃ client, clients da !! nonce = Some client ∧
       (nc client = 0 ∨ nc client < n ∨ IgnoreNonceCount da = true) ∧
       CheckAuth r now da =
         mkRun (Return (param auth "username",
                        Some (format_info (compute_rspauth H (compute_HA1 da H auth) auth)
                                (param auth "cnonce") (param auth "nc"))))
               (set_clients da (<[nonce := {| nc := n; last_seen := now |}]> (clients da)))
               [EvRLock; EvLookup nonce; EvUpdate nonce; EvUpdate nonce; EvRUnlock]).
Proof.
  destruct (well_formed_or_not da r) as [(auth & H & Hwf)|Hill].
  2: { left. by apply CheckAuth_ill_formed. }
  destruct (ParseUint16 (param auth "nc")) as [n|] eqn:Hn.
  2: { left. by eapply CheckAuth_bad_nc. }
  right. exists auth, H, n. do 2 (split; [done|]). intros nonce.
  destruct (clients da !! nonce) as [client|] eqn:Hc.
  2: { left. split; [done|]. by apply (CheckAuth_no_session da r now auth H n). }
  right.
  destruct (decide (nc client = 0)) as [Hz|Hz].
  { right. exists client. split; [done|]. split; [by left|].
    apply (CheckAuth_accepted da r now auth H n client); [done..|by left]. }
  destruct (decide (nc client < n)) as [Hlt|Hlt].
  { right. exists client. split; [done|]. split; [by right; left|].
    apply (CheckAuth_accepted da r now auth H n client); [done..|by right; left]. }
  destruct (IgnoreNonceCount da) eqn:Hi.
  { right. exists client. split; [done|]. split; [by right; right|].
    apply (CheckAuth_accepted da r now auth H n client); [done..|by right; right]. }
  left. exists client. split; [done|]. split; [done|]. split; [lia|]. split; [done|].
  apply (CheckAuth_replayed da r now auth H n client); [done..|lia|done].
Qed.

(** X2.  A request whose Authorization header is not [Digest] followed by
    a space and some text (no header at all, another scheme, another case)
    is rejected, and the cache is not looked at. *)
Theorem non_digest_header_rejected da r now :
  (∀ rest, Header_Get r (Authorization (HeadersV da)) ≠ "Digest " +:+ rest) →
  CheckAuth r now da = mkRun (Return Rejected) da [EvRLock; EvRUnlock].
Proof.
  intros Hhdr. apply CheckAuth_ill_formed. intros auth H [Hp _ _ _ _ _].
  unfold request_params in Hp.
  destruct (DigestAuthParams _) as [auth0|] eqn:Hd; [|done].
  apply DigestAuthParams_spec in Hd as (rest & Hrest & _). by destruct (Hhdr rest).
Qed.

(** X3.  A well-formed response for a nonce that is not in the cache (never
    issued, or purged) is rejected and nothing is registered for it. *)
Theorem unknown_nonce_rejected da r now user nonce n :
  valid_response da r user nonce n →
  clients da !! nonce = None →
  rejects (CheckAuth r now da) da ∧
  trace (CheckAuth r now da) = [EvRLock; EvLookup nonce; EvRUnlock].
Proof.
  intros (auth & H & Hwf & _ & <- & Hn) Hc.
  by rewrite (CheckAuth_no_session da r now auth H n).
Qed.

(** X4.  A request that passes the comparison of the response but whose nc
    does not read as a 64 bit number in base 16 is rejected before the
    cache is looked at. *)
Theorem unreadable_nc_rejected da r now auth H :
  well_formed da r auth H →
  ParseUint16 (param auth "nc") = None →
  CheckAuth r now da = mkRun (Return Rejected) da [EvRLock; EvRUnlock].
Proof. apply CheckAuth_bad_nc. Qed.

Lemma ParseUint16_loop_range s n m :
  0 ≤ n < 2 ^ 64 → ParseUint16_loop s n = Some m → 0 ≤ m < 2 ^ 64.
Proof.
  revert n. induction s as [|c s IH]; intros n Hn; simpl.
  { intros [= <-]. done. }
  destruct (digit_val c) as [d|]; [|done].
  destruct (16 <=? d); [done|]. destruct (2 ^ 60 <=? n); [done|].
  destruct (_ || _); [done|]. apply IH. apply Z.mod_pos_bound. lia.
Qed.

Lemma ParseUint16_range s n : ParseUint16 s = Some n → 0 ≤ n < 2 ^ 64.
Proof.
  destruct s as [|c s]; [done|]. unfold ParseUint16.
  apply ParseUint16_loop_range. lia.
Qed.

(** X5.  What [CheckAuth] reads from nc: nothing from the empty string, a
    number below [2^64] otherwise, and the same number when zeros are put in
    front. *)
Theorem ParseUint16_reads :
  ParseUint16 EmptyString = None ∧
  (∀ s n, ParseUint16 s = Some n → 0 ≤ n < 2 ^ 64) ∧
  (∀ s, s ≠ EmptyString → ParseUint16 (String "0" s) = ParseUint16 s).
Proof.
  split; [done|]. split; [apply ParseUint16_range|].
  intros [|c s] Hs; [done|]. reflexivity.
Qed.

Lemma CheckAuth_changes da r now :
  same_config da (final (CheckAuth r now da)) ∧
  dom (clients (final (CheckAuth r now da))) = dom (clients da) ∧
  ∀ k, clients (final (CheckAuth r now da)) !! k ≠ clients da !! k →
       ∃ auth, request_params da r = Some auth ∧ k = param auth "nonce" ∧
               is_Some (clients da !! k).
Proof.
  unfold same_config.
  destruct (CheckAuth_runs da r now) as [->|(auth & H & n & Hwf & Hn & Hcases)].
  { simpl. split; [apply set_clients_id|]. split; [done|]. intros k Hk. done. }
  destruct Hcases as [[_ ->]|[(client & _ & _ & _ & _ & ->)|(client & Hc & _ & ->)]].
  - simpl. split; [apply set_clients_id|]. split; [done|]. intros k Hk. done.
  - simpl. split; [apply set_clients_id|]. split; [done|]. intros k Hk. done.
  - simpl. split; [by destruct da|]. split.
    + rewrite dom_insert_L. apply elem_of_dom_2 in Hc.
      apply subseteq_union_1_L. by apply singleton_subseteq_l.
    + intros k Hk. exists auth. destruct Hwf as [Hp _ _ _ _ _]. split; [done|].
      destruct (decide (k = param auth "nonce")) as [->|Hne].
      * split; [done|]. by rewrite Hc.
      * by rewrite lookup_insert_ne in Hk.
Qed.

(** X6.  [CheckAuth] leaves the configuration as it is, adds and removes no
    session, and changes no session but that of the nonce of the request. *)
Theorem CheckAuth_frame da r now :
  same_config da (final (CheckAuth r now da)) ∧
  dom (clients (final (CheckAuth r now da))) = dom (clients da) ∧
  ∀ k, clients (final (CheckAuth r now da)) !! k ≠ clients da !! k →
       ∃ auth, request_params da r = Some auth ∧ k = param auth "nonce" ∧
               is_Some (clients da !! k).
Proof. apply CheckAuth_changes. Qed.

(** One check, with replay protection: no stored counter goes down. *)
Lemma CheckAuth_counter_step da r now k c :
  IgnoreNonceCount da = false →
  clients da !! k = Some c →
  ∃ c', clients (final (CheckAuth r now da)) !! k = Some c' ∧ nc c ≤ nc c'.
Proof.
  intros Hi Hk.
  destruct (CheckAuth_runs da r now) as [->|(auth & H & n & Hwf & Hn & Hcases)].
  { exists c. simpl. split; [done|lia]. }
  destruct Hcases as [[_ ->]|[(client & _ & _ & _ & _ & ->)|(client & Hc & Hcond & ->)]].
  - exists c. simpl. split; [done|lia].
  - exists c. simpl. split; [done|lia].
  - simpl. destruct (decide (k = param auth "nonce")) as [->|Hne].
    + rewrite lookup_insert_eq. eexists. split; [done|]. simpl.
      rewrite Hc in Hk. injection Hk as ->.
      apply ParseUint16_range in Hn.
      destruct Hcond as [Hz|[Hlt|Hig]]; [lia|lia|congruence].
    + rewrite lookup_insert_ne by done. exists c. split; [done|lia].
Qed.

Lemma bind_run {A B} (m : M A) (f : A → M B) da a :
  result (m da) = Return a →
  bind m f da = prepend (trace (m da)) (f a (final (m da))).
Proof. intros Hm. unfold bind. rewrite Hm. reflexivity. Qed.

Lemma same_config_IgnoreNonceCount da da' :
  same_config da da' → IgnoreNonceCount da' = IgnoreNonceCount da.
Proof. intros <-. done. Qed.

Lemma run_call_Check r now da :
  result (run_call (Check r now) da) = Return tt ∧
  final (run_call (Check r now) da) = final (CheckAuth r now da).
Proof.
  destruct (CheckAuth_returns da r now) as [out Hout].
  unfold run_call. rewrite (bind_run _ _ _ _ Hout). done.
Qed.

(** X7.  With replay protection, whatever requests are checked one after
    the other, every session stays in the cache and its stored counter
    never goes down. *)
Theorem counter_never_decreases da calls k c :
  IgnoreNonceCount da = false →
  Forall (λ call, ∃ r now, call = Check r now) calls →
  clients da !! k = Some c →
  result (run_calls calls da) = Return tt ∧
  ∃ c', clients (final (run_calls calls da)) !! k = Some c' ∧ nc c ≤ nc c'.
Proof.
  intros Hi Hcalls. revert da c Hi.
  induction Hcalls as [|call calls (r & now & ->) _ IH]; intros da c Hi Hk.
  { simpl. split; [done|]. exists c. split; [done|lia]. }
  destruct (run_call_Check r now da) as [Hres Hfin].
  change (run_calls (Check r now :: calls))
    with (bind (run_call (Check r now)) (λ _, run_calls calls)).
  rewrite (bind_run _ _ _ _ Hres), Hfin. unfold prepend. cbn [result final trace].
  destruct (CheckAuth_counter_step da r now k c Hi Hk) as (c1 & Hk1 & Hle1).
  destruct (IH (final (CheckAuth r now da)) c1) as [IHres (c' & Hk' & Hle')]; [|done|].
  { rewrite <- Hi. apply same_config_IgnoreNonceCount. apply CheckAuth_changes. }
  split; [done|]. exists c'. split; [done|lia].
Qed.

(** X8.  With replay protection, once the stored counter of a nonce is the
    largest 64 bit number, every request for this nonce is rejected. *)
Theorem exhausted_counter_rejects da r now auth client :
  IgnoreNonceCount da = false →
  request_params da r = Some auth →
  clients da !! param auth "nonce" = Some client →
  2 ^ 64 - 1 ≤ nc client →
  rejects (CheckAuth r now da) da.
Proof.
  intros Hi Hp Hc Hmax.
  destruct (CheckAuth_runs da r now) as [->|(auth' & H & n & Hwf & Hn & Hcases)]; [done|].
  destruct Hcases as [[_ ->]|[(client' & _ & _ & _ & _ & ->)|(client' & Hc' & Hcond & _)]];
    [done|done|].
  destruct Hwf as [Hp' _ _ _ _ _].
  assert (auth' = auth) as -> by congruence.
  assert (client' = client) as -> by congruence.
  apply ParseUint16_range in Hn.
  destruct Hcond as [?|[?|?]]; [lia|lia|congruence].
Qed.

(** X9.  [CheckAuth] never panics, and what it returns is either
    [return "", nil] or the username parameter of the request with an
    authinfo: a username that is not empty always comes with an authinfo. *)
Theorem username_comes_with_authinfo da r now :
  result (CheckAuth r now da) = Return Rejected ∨
  ∃ auth info, request_params da r = Some auth ∧
    result (CheckAuth r now da) = Return (param auth "username", Some info).
Proof.
  destruct (CheckAuth_runs da r now) as [->|(auth & H & n & Hwf & Hn & Hcases)];
    [by left|].
  destruct Hcases as [[_ ->]|[(client & _ & _ & _ & _ & ->)|(client & _ & _ & ->)]];
    [by left|by left|].
  right. destruct Hwf as [Hp _ _ _ _ _]. eauto.
Qed.

(** X10.  A request that gives no algorithm is checked as the request that
    gives the algorithm [MD5] and is the same otherwise. *)
Theorem absent_algorithm_is_MD5 da r r' now auth :
  Method r' = Method r → RequestURI r' = RequestURI r → URL r' = URL r →
  DigestAuthParams (Header_Get r (Authorization (HeadersV da))) = Some auth →
  auth !! "algorithm" = None →
  DigestAuthParams (Header_Get r' (Authorization (HeadersV da)))
    = Some (<["algorithm" := "MD5"]> auth) →
  CheckAuth r now da = CheckAuth r' now da.
Proof.
  intros Hm Hu Hurl Hp Halg Hp'.
  destruct r as [m u url hg], r' as [m' u' url' hg'].
  cbn [Method RequestURI URL Header_Get] in *. subst m' u' url'.
  unfold CheckAuth, defer, bind, mutex_RLock, mutex_RUnlock, emit, get_da.
  cbn [result final trace Header_Get]. rewrite Hp, Hp'.
  assert (default_algorithm (<["algorithm" := "MD5"]> auth) = default_algorithm auth) as ->.
  { unfold default_algorithm. by rewrite lookup_insert_eq, Halg. }
  unfold uri_matches, compute_KD. cbn [Method RequestURI URL]. reflexivity.
Qed.

End header_and_counter.

(** ** Results: purges, challenges and the goroutine's locks *)

Section cache_more.
Context {E : Externals}.

Lemma replay_deletes (l : digest_cache) (tr : list event) s s' :
  replay s tr = Finished s' →
  replay s (((λ e, EvDelete (e_nonce e)) <$> l) ++ tr) = Finished s'.
Proof.
  intros Htr. induction l as [|e l IH]; [done|].
  change (replay s (EvDelete (e_nonce e) :: (((λ e, EvDelete (e_nonce e)) <$> l) ++ tr))
          = Finished s').
  destruct s; simpl; by rewrite IH.
Qed.

Lemma same_config_refl da : same_config da da.
Proof. apply set_clients_id. Qed.

Lemma same_config_set_clients da c : same_config da (set_clients da c).
Proof. unfold same_config. by destruct da. Qed.

Lemma same_config_trans da1 da2 da3 :
  same_config da1 da2 → same_config da2 da3 → same_config da1 da3.
Proof. unfold same_config. intros <- <-. done. Qed.

Lemma same_config_sym da da' :
  same_config da da' → da' = set_clients da (clients da').
Proof. intros <-. by destruct da'. Qed.

(** Every run of [RequireAuth] is one of three. *)
Lemma RequireAuth_runs nonce now da :
  let count := int_wrap (ClientCacheTolerance da * 2) in
  let oldest := take (Z.to_nat count) (cache_entries (clients da)) in
  (Z.of_nat (size (clients da)) ≤ int_wrap (ClientCacheSize da + ClientCacheTolerance da) ∧
   RequireAuth nonce now da =
     mkRun (Return (unauthorized da nonce))
           (set_clients da (<[nonce := fresh_client now]> (clients da)))
           [EvRLock; EvLen; EvRUnlock; EvLock; EvInsert nonce; EvUnlock; EvRLock; EvRUnlock])
  ∨ (int_wrap (ClientCacheSize da + ClientCacheTolerance da) < Z.of_nat (size (clients da)) ∧
     0 ≤ count ≤ Z.of_nat (length (cache_entries (clients da))) ∧
     RequireAuth nonce now da =
       mkRun (Return (unauthorized da nonce))
             (set_clients da (<[nonce := fresh_client now]> (delete_entries oldest (clients da))))
             ([EvRLock; EvLen; EvRUnlock; EvLock; EvRange] ++
              ((λ e, EvDelete (e_nonce e)) <$> oldest) ++
              [EvUnlock; EvLock; EvInsert nonce; EvUnlock; EvRLock; EvRUnlock]))
  ∨ (int_wrap (ClientCacheSize da + ClientCacheTolerance da) < Z.of_nat (size (clients da)) ∧
     (count < 0 ∨ Z.of_nat (length (cache_entries (clients da))) < count) ∧
     RequireAuth nonce now da =
       mkRun (Panic "slice bounds out of range") da
             [EvRLock; EvLen; EvRUnlock; EvLock; EvRange]).
Proof.
  intros count oldest.
  destruct (Z_lt_le_dec (int_wrap (ClientCacheSize da + ClientCacheTolerance da))
                        (Z.of_nat (size (clients da)))) as [Hlt|Hle].
  2: { left. split; [done|]. by apply RequireAuth_within. }
  right.
  destruct (Z_lt_le_dec count 0) as [Hneg|Hpos].
  { right. split; [done|]. split; [by left|]. apply RequireAuth_panicking; auto. }
  destruct (Z_lt_le_dec (Z.of_nat (length (cache_entries (clients da)))) count) as [Hbig|Hok].
  { right. split; [done|]. split; [by right|]. apply RequireAuth_panicking; auto. }
  left. split; [done|]. split; [done|]. by apply RequireAuth_purging.
Qed.

Lemma RequireAuth_returned nonce now da w :
  result (RequireAuth nonce now da) = Return w →
  w = unauthorized da nonce ∧
  clients (final (RequireAuth nonce now da)) !! nonce = Some (fresh_client now) ∧
  same_config da (final (RequireAuth nonce now da)) ∧
  replay Free (trace (RequireAuth nonce now da)) = Finished Free.
Proof.
  intros Hres.
  destruct (RequireAuth_runs nonce now da) as [[_ Hrun]|[(_ & _ & Hrun)|(_ & _ & Hrun)]];
    rewrite Hrun in Hres |- *; cbn [result final trace] in *.
  - injection Hres as <-. split; [done|]. split; [apply lookup_insert_eq|].
    split; [apply same_config_set_clients|done].
  - injection Hres as <-. split; [done|]. split; [apply lookup_insert_eq|].
    split; [apply same_config_set_clients|].
    cbn [app replay made_first]. by rewrite (replay_deletes _ _ WriteLocked Free).
  - done.
Qed.

(** X13.  When [RequireAuth] returns, whether it purged or not: the answer
    is the challenge for the nonce, the nonce is registered with counter 0
    and the time of the call (a session it had is replaced), the
    configuration is as before and every lock taken has been released. *)
Theorem RequireAuth_registers nonce now da w :
  result (RequireAuth nonce now da) = Return w →
  w = unauthorized da nonce ∧
  clients (final (RequireAuth nonce now da)) !! nonce = Some (fresh_client now) ∧
  same_config da (final (RequireAuth nonce now da)) ∧
  replay Free (trace (RequireAuth nonce now da)) = Finished Free.
Proof. apply RequireAuth_returned. Qed.

(** X19.  When [RequireAuth] panics, in [Purge], nothing has changed but
    the exclusive lock stays locked; a goroutine that then calls [CheckAuth]
    or [RequireAuth] on this authenticator waits for ever at its first
    operation on the lock. *)
Theorem panic_leaves_cache_locked nonce now da msg :
  result (RequireAuth nonce now da) = Panic msg →
  final (RequireAuth nonce now da) = da ∧
  replay Free (trace (RequireAuth nonce now da)) = Finished WriteLocked ∧
  (∀ r now' da', replay WriteLocked (trace (CheckAuth r now' da')) = Blocked []) ∧
  (∀ nonce' now' da', replay WriteLocked (trace (RequireAuth nonce' now' da')) = Blocked []).
Proof.
  intros Hres.
  destruct (RequireAuth_runs nonce now da) as [[_ Hrun]|[(_ & _ & Hrun)|(_ & _ & Hrun)]];
    rewrite Hrun in Hres |- *; cbn [result final trace] in *; [done|done|].
  split; [done|]. split; [done|]. split.
  - intros r now' da'.
    destruct (CheckAuth_runs da' r now') as [->|(auth & H & n & _ & _ & Hcases)]; [done|].
    destruct Hcases as [[_ ->]|[(client & _ & _ & _ & _ & ->)|(client & _ & _ & ->)]]; done.
  - intros nonce' now' da'.
    destruct (RequireAuth_runs nonce' now' da')
      as [[_ ->]|[(_ & _ & ->)|(_ & _ & ->)]]; done.
Qed.

(** [CheckAuth] takes the shared lock once and releases it. *)
Lemma CheckAuth_releases_lock da r now :
  replay Free (trace (CheckAuth r now da)) = Finished Free.
Proof.
  destruct (CheckAuth_runs da r now) as [->|(auth & H & n & _ & _ & Hcases)]; [done|].
  destruct Hcases as [[_ ->]|[(client & _ & _ & _ & _ & ->)|(client & _ & _ & ->)]]; done.
Qed.

Lemma valid_response_same_config da da' r user nonce n :
  same_config da da' → valid_response da r user nonce n →
  valid_response da' r user nonce n.
Proof.
  intros Hcfg Hv. rewrite (same_config_sym da da' Hcfg).
  by apply valid_response_set_clients.
Qed.

(** X17.  A challenge and its response: once [RequireAuth] has returned the
    challenge for a nonce, the first well-formed response for this nonce is
    accepted whatever its nc reads as, and the counter is stored. *)
Theorem challenge_then_response da nonce now w r now' user n :
  result (RequireAuth nonce now da) = Return w →
  valid_response da r user nonce n →
  accepts (CheckAuth r now' (final (RequireAuth nonce now da))) user ∧
  stored_counter (final (CheckAuth r now' (final (RequireAuth nonce now da)))) nonce
    = Some n.
Proof.
  intros Hres Hv.
  destruct (RequireAuth_returned nonce now da w Hres) as (_ & Hc & Hcfg & _).
  destruct (accepted_step (final (RequireAuth nonce now da)) r user nonce n
              (fresh_client now) now') as (Hacc & _ & Hst & _).
  - by apply (valid_response_same_config da).
  - done.
  - by left.
  - done.
Qed.

Section cache_contracts.
Hypothesis HE : GoContracts E.

(** X11.  [Purge(count)] with [count] from 0 to the number of sessions
    returns, removes [count] sessions none of which was seen later than one
    that stays, leaves the configuration alone, writes under the exclusive
    lock only and releases it. *)
Theorem Purge_within_cache da count :
  0 ≤ count ≤ Z.of_nat (size (clients da)) →
  result (Purge count da) = Return tt ∧
  same_config da (final (Purge count da)) ∧
  purged_oldest (clients da) (clients (final (Purge count da))) count ∧
  disciplined Unlocked (trace (Purge count da)) = true ∧
  replay Free (trace (Purge count da)) = Finished Free.
Proof.
  intros Hc. rewrite Purge_in_bounds by (by rewrite (length_cache_entries HE)).
  cbn [result final trace]. split; [done|]. split; [apply same_config_set_clients|].
  split; [by apply (Purge_purges_oldest HE)|]. split.
  - cbn [app disciplined]. by rewrite disciplined_deletes.
  - cbn [app replay made_first]. by rewrite (replay_deletes _ _ WriteLocked Free).
Qed.

(** X12.  [Purge] at the edges: [Purge(0)] leaves the cache as it is,
    [Purge] of the number of sessions empties it, and a negative count
    panics with the cache as it was and the exclusive lock locked. *)
Theorem Purge_edges da :
  clients (final (Purge 0 da)) = clients da ∧
  clients (final (Purge (Z.of_nat (size (clients da))) da)) = ∅ ∧
  ∀ count, count < 0 →
    Purge count da = mkRun (Panic "slice bounds out of range") da [EvLock; EvRange].
Proof.
  split; [|split].
  - rewrite Purge_in_bounds by (rewrite (length_cache_entries HE); lia). done.
  - destruct (Purge_purges_oldest HE (Z.of_nat (size (clients da))) (clients da))
      as (_ & Hsize & _); [lia|].
    rewrite Purge_in_bounds by (rewrite (length_cache_entries HE); lia).
    cbn [final clients set_clients]. apply map_size_empty_inv. lia.
  - intros count Hneg. apply Purge_out_of_bounds. by left.
Qed.

(** A challenge on a cache within [size + tolerance + 1]. *)
Lemma RequireAuth_keeps_bound nonce now da :
  sizes_in_range da →
  1 ≤ ClientCacheTolerance da ≤ ClientCacheSize da + 1 →
  Z.of_nat (size (clients da)) ≤ ClientCacheSize da + ClientCacheTolerance da + 1 →
  result (RequireAuth nonce now da) = Return (unauthorized da nonce) ∧
  same_config da (final (RequireAuth nonce now da)) ∧
  Z.of_nat (size (clients (final (RequireAuth nonce now da))))
    ≤ ClientCacheSize da + ClientCacheTolerance da + 1.
Proof.
  intros (HS & HT & HST & HTT) [HT1 HTS] Hsize.
  assert (int_wrap (ClientCacheSize da + ClientCacheTolerance da)
          = ClientCacheSize da + ClientCacheTolerance da) as Hw1
    by (apply int_wrap_id; lia).
  assert (int_wrap (ClientCacheTolerance da * 2) = 2 * ClientCacheTolerance da) as Hw2
    by (rewrite int_wrap_id; lia).
  destruct (RequireAuth_runs nonce now da)
    as [[Hle Hrun]|[(Hlt & Hc & Hrun)|(Hlt & Hc & Hrun)]];
    rewrite Hrun; cbn [result final trace clients set_clients].
  - split; [done|]. split; [apply same_config_set_clients|].
    rewrite map_size_insert. destruct (clients da !! nonce); simpl; lia.
  - split; [done|]. split; [apply same_config_set_clients|].
    destruct (Purge_purges_oldest HE (int_wrap (ClientCacheTolerance da * 2)) (clients da))
      as (_ & Hpurged & _); [rewrite (length_cache_entries HE) in Hc; lia|].
    rewrite map_size_insert. destruct (_ !! nonce); simpl; lia.
  - rewrite (length_cache_entries HE) in Hc. lia.
Qed.

(** X14.  With sizes in range and a tolerance of at most the size plus one,
    [RequireAuth] returns the challenge from every cache: the purge it may
    make is within the cache. *)
Theorem RequireAuth_returns nonce now da :
  sizes_in_range da →
  ClientCacheTolerance da ≤ ClientCacheSize da + 1 →
  result (RequireAuth nonce now da) = Return (unauthorized da nonce).
Proof.
  intros (HS & HT & HST & HTT) HTS.
  assert (int_wrap (ClientCacheSize da + ClientCacheTolerance da)
          = ClientCacheSize da + ClientCacheTolerance da) as Hw1
    by (apply int_wrap_id; lia).
  assert (int_wrap (ClientCacheTolerance da * 2) = 2 * ClientCacheTolerance da) as Hw2
    by (rewrite int_wrap_id; lia).
  destruct (RequireAuth_runs nonce now da)
    as [[Hle Hrun]|[(Hlt & Hc & Hrun)|(Hlt & Hc & Hrun)]];
    rewrite Hrun; cbn [result]; [done|done|].
  rewrite (length_cache_entries HE) in Hc. lia.
Qed.

End cache_contracts.

End cache_more.

(** ** Results: the handlers and sequences of calls *)

Section handlers.
Context {E : Externals}.

Lemma bind_ret_run {A B} (m : M A) (g : A → B) da :
  result (bind m (λ x, ret (g x)) da)
    = match result (m da) with Return a => Return (g a) | Panic msg => Panic msg end ∧
  final (bind m (λ x, ret (g x)) da) = final (m da) ∧
  trace (bind m (λ x, ret (g x)) da) = trace (m da).
Proof.
  unfold bind, ret. destruct (m da) as [[a|msg] fin tr]; cbn [result final trace].
  - by rewrite app_nil_r.
  - done.
Qed.

Lemma bind_ret_tt {A} (m : M A) da :
  result (bind m (λ _, ret tt) da)
    = match result (m da) with Return _ => Return tt | Panic msg => Panic msg end ∧
  final (bind m (λ _, ret tt) da) = final (m da).
Proof.
  unfold bind, ret. by destruct (m da) as [[a|msg] fin tr].
Qed.

(** The two ways of the handler of [Wrap]: the wrapped handler is called
    after a check that returned a username, a challenge is issued after
    one that returned none. *)
Lemma Wrap_handler_runs r now nonce now' da :
  (∃ user authinfo, user ≠ EmptyString ∧
     result (CheckAuth r now da) = Return (user, authinfo) ∧
     Wrap_handler r now nonce now' da =
       mkRun (Return (Wrapped user authinfo)) (final (CheckAuth r now da))
             (trace (CheckAuth r now da) ++ []))
  ∨ (∃ authinfo,
     result (CheckAuth r now da) = Return (EmptyString, authinfo) ∧
     Wrap_handler r now nonce now' da =
       prepend (trace (CheckAuth r now da))
         (bind (RequireAuth nonce now') (λ w, ret (Challenged w))
               (final (CheckAuth r now da)))).
Proof.
  destruct (CheckAuth_returns da r now) as [[user authinfo] Hout].
  unfold Wrap_handler. rewrite (bind_run _ _ _ _ Hout). cbn [fst snd].
  case_bool_decide as Huser.
  - right. exists authinfo. by rewrite <- Huser.
  - left. exists user, authinfo. done.
Qed.

(** X20.  The handler of [Wrap] calls the wrapped handler only with a
    username that is not empty, that of a well-formed request whose counter
    has just been stored, and with an authinfo; when it answers with a
    challenge, the nonce of the challenge is registered. *)
Theorem Wrap_handler_serves r now nonce now' da :
  (∀ user authinfo,
     result (Wrap_handler r now nonce now' da) = Return (Wrapped user authinfo) →
     user ≠ EmptyString ∧ is_Some authinfo ∧
     ∃ auth H n, well_formed da r auth H ∧ user = param auth "username" ∧
       ParseUint16 (param auth "nc") = Some n ∧
       stored_counter (final (Wrap_handler r now nonce now' da)) (param auth "nonce")
         = Some n) ∧
  (∀ w, result (Wrap_handler r now nonce now' da) = Return (Challenged w) →
     w = unauthorized da nonce ∧
     clients (final (Wrap_handler r now nonce now' da)) !! nonce
       = Some (fresh_client now')).
Proof.
  destruct (Wrap_handler_runs r now nonce now' da)
    as [(user & authinfo & Huser & Hout & ->)|(authinfo & Hout & ->)].
  - split; [|done]. cbn [result final]. intros user' authinfo' [= <- <-].
    split; [done|].
    destruct (CheckAuth_runs da r now) as [Hrun|(auth & H & n & Hwf & Hn & Hcases)].
    { rewrite Hrun in Hout. by injection Hout as <- <-. }
    destruct Hcases as [[_ Hrun]|[(client & _ & _ & _ & _ & Hrun)|(client & _ & _ & Hrun)]];
      rewrite Hrun in Hout |- *; cbn [result final] in *.
    + by injection Hout as <- <-.
    + by injection Hout as <- <-.
    + injection Hout as <- <-. split; [done|]. exists auth, H, n.
      do 3 (split; [done|]). apply stored_counter_insert.
  - destruct (bind_ret_run (RequireAuth nonce now') Challenged (final (CheckAuth r now da)))
      as (Hres & Hfin & _).
    unfold prepend. cbn [result final]. rewrite Hres, Hfin.
    split; [intros user authinfo' Hw; by destruct (result (RequireAuth _ _ _))|].
    intros w Hw.
    destruct (result (RequireAuth nonce now' (final (CheckAuth r now da)))) as [w'|msg] eqn:Hr;
      [|done].
    injection Hw as ->.
    destruct (RequireAuth_returned _ _ _ _ Hr) as (-> & Hc & _). split; [|done].
    destruct (CheckAuth_changes da r now) as (Hcfg & _).
    rewrite (same_config_sym _ _ Hcfg). done.
Qed.

Lemma same_config_sizes da da' :
  same_config da da' →
  ClientCacheSize da' = ClientCacheSize da ∧
  ClientCacheTolerance da' = ClientCacheTolerance da.
Proof. intros <-. done. Qed.

Lemma CheckAuth_size da r now :
  size (clients (final (CheckAuth r now da))) = size (clients da).
Proof.
  destruct (CheckAuth_changes da r now) as (_ & Hdom & _).
  by rewrite <- !size_dom, Hdom.
Qed.

Section bounded.
Hypothesis HE : GoContracts E.

Lemma run_call_keeps_bound da0 da c :
  sizes_in_range da0 →
  1 ≤ ClientCacheTolerance da0 ≤ ClientCacheSize da0 + 1 →
  within_bound da0 da →
  result (run_call c da) = Return tt ∧ within_bound da0 (final (run_call c da)).
Proof.
  intros Hrange HT [Hcfg Hsize].
  destruct (same_config_sizes _ _ Hcfg) as [HS' HT'].
  assert (sizes_in_range da) as Hrange'.
  { unfold sizes_in_range. by rewrite HS', HT'. }
  assert (∀ nonce now da1, same_config da0 da1 →
            Z.of_nat (size (clients da1))
              ≤ ClientCacheSize da0 + ClientCacheTolerance da0 + 1 →
            result (RequireAuth nonce now da1) = Return (unauthorized da1 nonce) ∧
            within_bound da0 (final (RequireAuth nonce now da1))) as Hissue.
  { intros nonce now da1 Hcfg1 Hsize1.
    destruct (same_config_sizes _ _ Hcfg1) as [HS1 HT1].
    destruct (RequireAuth_keeps_bound HE nonce now da1) as (Hres & Hcfg2 & Hsize2).
    - unfold sizes_in_range. by rewrite HS1, HT1.
    - by rewrite HS1, HT1.
    - by rewrite HS1, HT1.
    - split; [done|]. split; [by eapply same_config_trans|]. by rewrite HS1, HT1 in Hsize2. }
  destruct c as [nonce now|r now|r now nonce now'].
  - destruct (Hissue nonce now da Hcfg Hsize) as [Hres Hbound].
    destruct (bind_ret_tt (RequireAuth nonce now) da) as (Hr & Hf).
    unfold run_call. rewrite Hr, Hf, Hres. done.
  - destruct (run_call_Check r now da) as [Hres Hfin]. rewrite Hres, Hfin.
    split; [done|]. split.
    + eapply same_config_trans; [done|]. apply CheckAuth_changes.
    + by rewrite CheckAuth_size.
  - destruct (bind_ret_tt (Wrap_handler r now nonce now') da) as (Hr & Hf).
    unfold run_call. rewrite Hr, Hf. clear Hr Hf.
    assert (within_bound da0 (final (CheckAuth r now da))) as [Hcfg1 Hsize1].
    { split; [eapply same_config_trans; [done|]; apply CheckAuth_changes|].
      by rewrite CheckAuth_size. }
    destruct (Wrap_handler_runs r now nonce now' da)
      as [(user & authinfo & _ & _ & ->)|(authinfo & _ & ->)].
    + cbn [result final]. done.
    + destruct (Hissue nonce now' _ Hcfg1 Hsize1) as [Hres Hbound].
      destruct (bind_ret_run (RequireAuth nonce now') Challenged (final (CheckAuth r now da)))
        as (Hr & Hf & _).
      unfold prepend. cbn [result final]. rewrite Hr, Hf, Hres. done.
Qed.

Lemma run_calls_keep_bound da0 calls da :
  sizes_in_range da0 →
  1 ≤ ClientCacheTolerance da0 ≤ ClientCacheSize da0 + 1 →
  within_bound da0 da →
  result (run_calls calls da) = Return tt ∧ within_bound da0 (final (run_calls calls da)).
Proof.
  intros Hrange HT. revert da. induction calls as [|c calls IH]; intros da Hda; [done|].
  destruct (run_call_keeps_bound da0 da c Hrange HT Hda) as [Hres Hbound].
  change (run_calls (c :: calls)) with (bind (run_call c) (λ _, run_calls calls)).
  rewrite (bind_run _ _ _ _ Hres). unfold prepend. cbn [result final].
  by apply IH.
Qed.

(** X15.  Bounded memory.  With sizes in range and a tolerance from 1 to the
    size plus one, from a cache of at most [size + tolerance + 1] sessions,
    no sequence of challenges, checks and requests served by the handler of
    [Wrap] panics, changes the configuration, or takes the cache over
    [size + tolerance + 1] sessions. *)
Theorem cache_stays_bounded da calls :
  sizes_in_range da →
  1 ≤ ClientCacheTolerance da ≤ ClientCacheSize da + 1 →
  Z.of_nat (size (clients da)) ≤ ClientCacheSize da + ClientCacheTolerance da + 1 →
  result (run_calls calls da) = Return tt ∧
  same_config da (final (run_calls calls da)) ∧
  Z.of_nat (size (clients (final (run_calls calls da))))
    ≤ ClientCacheSize da + ClientCacheTolerance da + 1.
Proof.
  intros Hrange HT Hsize.
  destruct (run_calls_keep_bound da calls da Hrange HT) as (Hres & Hcfg & Hbound).
  - split; [apply same_config_refl|done].
  - done.
Qed.

(** X16.  An authenticator made by [NewDigestAuthenticator] and left with
    its sizes 1000 and 100: no sequence of challenges, checks and served
    requests panics, and the cache never holds more than 1101 sessions. *)
Theorem NewDigestAuthenticator_bounded realm secrets opaque normal calls :
  let da := NewDigestAuthenticator realm secrets opaque normal in
  result (run_calls calls da) = Return tt ∧
  Z.of_nat (size (clients (final (run_calls calls da)))) ≤ 1101.
Proof.
  intros da.
  assert (ClientCacheSize da = 1000 ∧ ClientCacheTolerance da = 100) as [HS HT] by done.
  destruct (run_calls_keep_bound da calls da) as (Hres & _ & Hbound).
  - unfold sizes_in_range. rewrite HS, HT. lia.
  - rewrite HS, HT. lia.
  - split; [apply same_config_refl|]. rewrite HS, HT.
    change (clients da) with (∅ : gmap string digest_client).
    rewrite map_size_empty. lia.
  - split; [done|]. rewrite HS, HT in Hbound. lia.
Qed.

End bounded.

End handlers.

(** ** Results: [JustCheck], [NewContext] and the order of the cache entries *)

Section context_and_header.
Context {E : Externals} {L : HttpExternals}.

Lemma bind_panic_result {A B} (m : M A) (f : A → M B) da msg :
  result (m da) = Panic msg → result (bind m f da) = Panic msg.
Proof. intros Hm. unfold bind. by rewrite Hm. Qed.

Lemma CheckAuth_trace_head da r now :
  ∃ tr, trace (CheckAuth r now da) = EvRLock :: tr.
Proof.
  destruct (CheckAuth_runs da r now) as [->|(auth & H & n & _ & _ & Hcases)]; [by eexists|].
  destruct Hcases as [[_ ->]|[(client & _ & _ & _ & _ & ->)|(client & _ & _ & ->)]];
    by eexists.
Qed.

(** X21.  [NewContext] takes the exclusive lock and then calls [CheckAuth],
    which starts by taking the shared lock of the same mutex: the goroutine
    waits there for ever, whatever the request and the cache are, having
    done nothing but [Lock]. *)
Theorem NewContext_blocks r now nonce now' da :
  replay Free (trace (NewContext r now nonce now' da)) = Blocked [EvLock].
Proof.
  destruct (CheckAuth_returns da r now) as [out Hout].
  destruct (CheckAuth_trace_head da r now) as [tr Htr].
  unfold NewContext, mutex_Lock. rewrite bind_emit.
  rewrite (bind_run _ _ _ _ Hout). unfold prepend. cbn [trace].
  rewrite Htr. reflexivity.
Qed.

(** X22.  The handler of [JustCheck] calls the wrapped handler only for a
    request for which [CheckAuth] returned a username that is not empty, and
    gives it the request with this username as its username header,
    whatever the client sent there; the other headers, the method and the
    URI are those of the request. *)
Theorem JustCheck_sets_username r now nonce now' da authinfo r' :
  result (JustCheck_handler r now nonce now' da) = Return (Forward authinfo r') →
  ∃ user, user ≠ EmptyString ∧
    result (CheckAuth r now da) = Return (user, authinfo) ∧
    Header_Get r' AuthUsernameHeader = user ∧
    (∀ name, CanonicalMIMEHeaderKey name ≠ CanonicalMIMEHeaderKey AuthUsernameHeader →
             Header_Get r' name = Header_Get r name) ∧
    Method r' = Method r ∧ RequestURI r' = RequestURI r ∧ URL r' = URL r.
Proof.
  unfold JustCheck_handler.
  destruct (Wrap_handler_runs r now nonce now' da)
    as [(user & authinfo' & Huser & Hout & Hrun)|(authinfo' & Hout & Hrun)].
  - rewrite (bind_returned _ _ _ _ _ _ Hrun). unfold prepend, ret. cbn [result].
    intros [= <- <-]. exists user. do 2 (split; [done|]).
    unfold Header_Set. cbn [Header_Get Method RequestURI URL].
    split; [by rewrite bool_decide_eq_true_2|].
    split; [|done]. intros name Hname. by rewrite bool_decide_eq_false_2.
  - destruct (result (Wrap_handler r now nonce now' da)) as [[w|user ai]|msg] eqn:Hres.
    + rewrite (bind_run _ _ _ _ Hres). unfold prepend, ret. cbn [result]. done.
    + exfalso. rewrite Hrun in Hres. unfold prepend in Hres. cbn [result] in Hres.
      destruct (bind_ret_run (RequireAuth nonce now') Challenged (final (CheckAuth r now da)))
        as (Hr & _). rewrite Hr in Hres.
      by destruct (result (RequireAuth _ _ _)).
    + by rewrite (bind_panic_result _ _ _ _ Hres).
Qed.

End context_and_header.

(** X23.  [Less] orders the entries of the cache by the time they were last
    seen, as a strict weak order: no entry is before itself, being before
    goes from a first entry to a third through a second one, and so does
    being neither before nor after. *)
Theorem Less_strict_weak_order :
  (∀ a, Less a a = false) ∧
  (∀ a b c, Less a b = true → Less b c = true → Less a c = true) ∧
  (∀ a b c, Less a b = false → Less b a = false →
            Less b c = false → Less c b = false →
            Less a c = false ∧ Less c a = false) ∧
  (∀ a b, Less a b = true ↔ e_last_seen a < e_last_seen b).
Proof.
  unfold Less. split; [|split; [|split]].
  - intros a. apply Z.ltb_irrefl.
  - intros a b c Hab Hbc. apply Z.ltb_lt in Hab, Hbc. apply Z.ltb_lt. lia.
  - intros a b c Hab Hba Hbc Hcb. apply Z.ltb_ge in Hab, Hba, Hbc, Hcb.
    split; apply Z.ltb_ge; lia.
  - intros a b. apply Z.ltb_lt.
Qed.

(** X24.  [Swap(i, j)] panics exactly when an index is out of the slice;
    otherwise it exchanges the entries at [i] and [j] and leaves the others:
    the result has the same length and the same entries, [Less(i, j)] on it
    is [Less(j, i)] on the slice, and swapping again gives the slice back. *)
Theorem Swap_exchanges (c : digest_cache) (i j : Z) :
  (Swap c i j = None ↔ ¬ (0 ≤ i < Len c ∧ 0 ≤ j < Len c)) ∧
  ∀ c', Swap c i j = Some c' →
    c' ≡ₚ c ∧ Len c' = Len c ∧
    c' !! Z.to_nat i = c !! Z.to_nat j ∧
    c' !! Z.to_nat j = c !! Z.to_nat i ∧
    (∀ k, k ≠ Z.to_nat i → k ≠ Z.to_nat j → c' !! k = c !! k) ∧
    Less_at c' i j = Less_at c j i ∧
    Swap c' i j = Some c.
Proof.
  unfold Swap, Len. split.
  - destruct (0 <=? i) eqn:Hi, (0 <=? j) eqn:Hj; simpl;
      try (apply Z.leb_gt in Hi); try (apply Z.leb_gt in Hj);
      try (split; [intros _; lia|done]).
    apply Z.leb_le in Hi, Hj.
    destruct (c !! Z.to_nat i) as [a|] eqn:Ha.
    + destruct (c !! Z.to_nat j) as [b|] eqn:Hb.
      * apply lookup_lt_Some in Ha, Hb. split; [done|]. intros []. lia.
      * apply lookup_ge_None in Hb. split; [intros _; lia|done].
    + apply lookup_ge_None in Ha. split; [intros _; lia|done].
  - intros c'. unfold Less_at. rewrite (andb_comm (0 <=? j)).
    destruct ((0 <=? i) && (0 <=? j)); [|done].
    destruct (c !! Z.to_nat i) as [a|] eqn:Ha; [|done].
    destruct (c !! Z.to_nat j) as [b|] eqn:Hb; [|done].
    intros [= <-]. set (ni := Z.to_nat i) in *. set (nj := Z.to_nat j) in *.
    pose proof (lookup_lt_Some _ _ _ Ha) as Hlti.
    pose proof (lookup_lt_Some _ _ _ Hb) as Hltj.
    assert (<[nj:=a]> (<[ni:=b]> c) !! ni = Some b) as Hi'.
    { destruct (decide (nj = ni)) as [Heq|Hne].
      - rewrite Heq in *. rewrite list_lookup_insert_eq by (by rewrite length_insert).
        congruence.
      - rewrite list_lookup_insert_ne by done. by apply list_lookup_insert_eq. }
    assert (<[nj:=a]> (<[ni:=b]> c) !! nj = Some a) as Hj'.
    { apply list_lookup_insert_eq. by rewrite length_insert. }
    split; [by apply Permutation_insert_swap|].
    split; [by rewrite !length_insert|].
    split; [done|]. split; [done|]. split; [|split].
    + intros k Hki Hkj. by rewrite !list_lookup_insert_ne.
    + by rewrite Hi', Hj'.
    + rewrite Hi', Hj'. f_equal. apply list_eq. intros k.
      destruct (decide (k = nj)) as [->|Hkj].
      { by rewrite list_lookup_insert_eq by (by rewrite !length_insert). }
      rewrite list_lookup_insert_ne by done.
      destruct (decide (k = ni)) as [->|Hki].
      { by rewrite list_lookup_insert_eq by (by rewrite !length_insert). }
      by rewrite !list_lookup_insert_ne.
Qed.

(** ** Results: the locks a handler leaves *)

Section lock_release.
Context {E : Externals}.

Lemma replay_app tr1 tr2 s s1 s2 :
  replay s tr1 = Finished s1 → replay s1 tr2 = Finished s2 →
  replay s (tr1 ++ tr2) = Finished s2.
Proof.
  revert s. induction tr1 as [|e tr1 IH]; intros s H1 H2.
  { simpl in *. by injection H1 as ->. }
  assert (∀ s', made_first e (replay s' tr1) = Finished s1 →
                made_first e (replay s' (tr1 ++ tr2)) = Finished s2) as Hstep.
  { intros s' Hs'. destruct (replay s' tr1) as [s''| |] eqn:Hr; [|done..].
    injection Hs' as ->. by rewrite (IH s'). }
  destruct e, s as [|[|n]|]; simpl in *; try done; by apply Hstep.
Qed.

(** X18.  [CheckAuth], and the handler of [Wrap] when it returns, release
    the locks they take: a goroutine that starts with the lock free never
    waits in them and leaves the lock free. *)
Theorem handlers_release_lock r now nonce now' da :
  replay Free (trace (CheckAuth r now da)) = Finished Free ∧
  (∀ served, result (Wrap_handler r now nonce now' da) = Return served →
     replay Free (trace (Wrap_handler r now nonce now' da)) = Finished Free).
Proof.
  split; [apply CheckAuth_releases_lock|]. intros served.
  destruct (Wrap_handler_runs r now nonce now' da)
    as [(user & authinfo & _ & _ & ->)|(authinfo & _ & ->)].
  - intros _. cbn [trace]. rewrite app_nil_r. apply CheckAuth_releases_lock.
  - destruct (bind_ret_run (RequireAuth nonce now') Challenged (final (CheckAuth r now da)))
      as (Hr & _ & Ht).
    unfold prepend. cbn [result trace]. rewrite Hr, Ht.
    destruct (result (RequireAuth nonce now' (final (CheckAuth r now da)))) as [w|msg] eqn:Hres;
      [|done].
    intros _. apply (replay_app _ _ Free Free Free); [apply CheckAuth_releases_lock|].
    by destruct (RequireAuth_returned _ _ _ _ Hres) as (_ & _ & _ & ?).
Qed.

End lock_release.

(** ** Closed examples of the results above *)

(** A request with the Basic scheme. *)
Lemma non_digest_header_rejected_witness :
  CheckAuth (E := demo.externals) demo_more.req_basic 101 demo.da1
    = mkRun (Return Rejected) demo.da1 [EvRLock; EvRUnlock].
Proof.
  apply (non_digest_header_rejected (E := demo.externals) demo.da1 demo_more.req_basic 101).
  intros rest Heq. vm_compute in Heq. discriminate.
Defined.

(** The request of alice for ["n1"] on an empty cache. *)
Lemma unknown_nonce_rejected_witness :
  clients demo_more.da_none !! "n1" = None ∧
  rejects (CheckAuth (E := demo.externals) (demo.req "1") 101 demo_more.da_none)
          demo_more.da_none ∧
  trace (CheckAuth (E := demo.externals) (demo.req "1") 101 demo_more.da_none)
    = [EvRLock; EvLookup "n1"; EvRUnlock].
Proof.
  split; [reflexivity|].
  apply (unknown_nonce_rejected (E := demo.externals) demo_more.da_none (demo.req "1") 101
           "alice" "n1" 1).
  - apply (valid_response_set_clients (E := demo.externals) demo.da1 ∅).
    apply (demo_valid_response false "1" 1). apply (bool_decide_unpack _). by vm_compute.
  - reflexivity.
Defined.

(** The request of alice with an nc of seventeen digits. *)
Lemma unreadable_nc_rejected_witness :
  ParseUint16 "10000000000000000" = None ∧
  CheckAuth (E := demo.externals) demo_more.req_long_nc 101 demo.da1
    = mkRun (Return Rejected) demo.da1 [EvRLock; EvRUnlock].
Proof.
  split; [reflexivity|].
  apply (unreadable_nc_rejected (E := demo.externals) demo.da1 demo_more.req_long_nc 101
           (demo.params demo_more.req_long_nc) demo.H).
  - by split; vm_compute.
  - by vm_compute.
Defined.

(** The counters 3, 2 and 1, in this order, for the unused nonce ["n1"]. *)
Lemma counter_never_decreases_witness :
  result (run_calls (E := demo.externals) demo_more.checks demo.da1) = Return tt ∧
  ∃ c', clients (final (run_calls (E := demo.externals) demo_more.checks demo.da1)) !! "n1"
          = Some c' ∧ 0 ≤ nc c'.
Proof.
  apply (counter_never_decreases (E := demo.externals) demo.da1 demo_more.checks "n1"
           (fresh_client 5)).
  - reflexivity.
  - repeat constructor; by eexists _, _.
  - reflexivity.
Defined.

(** The largest counter, stored and sent again. *)
Lemma exhausted_counter_rejects_witness :
  ParseUint16 "ffffffffffffffff" = Some (2 ^ 64 - 1) ∧
  rejects (CheckAuth (E := demo.externals) demo_more.req_max_nc 101 demo_more.da_exhausted)
          demo_more.da_exhausted.
Proof.
  split; [reflexivity|].
  apply (exhausted_counter_rejects (E := demo.externals) demo_more.da_exhausted
           demo_more.req_max_nc 101 (demo.params demo_more.req_max_nc)
           {| nc := 2 ^ 64 - 1; last_seen := 5 |}).
  - reflexivity.
  - by vm_compute.
  - by vm_compute.
  - simpl. lia.
Defined.

(** The request of alice without algorithm, and with the algorithm MD5. *)
Lemma absent_algorithm_is_MD5_witness :
  demo.raw_params (demo.req "1") !! "algorithm" = None ∧
  CheckAuth (E := demo.externals) (demo.req "1") 101 demo.da1
    = CheckAuth (E := demo.externals) demo_more.req_with_algorithm 101 demo.da1.
Proof.
  assert (demo.raw_params (demo.req "1") !! "algorithm" = None) as Hnone by (by vm_compute).
  split; [exact Hnone|].
  apply (absent_algorithm_is_MD5 (E := demo.externals) demo.da1 (demo.req "1")
           demo_more.req_with_algorithm 101 (demo.raw_params (demo.req "1")));
    first [reflexivity | exact Hnone | by vm_compute].
Defined.

(** [Purge(2)] on the cache of three sessions: the session seen last stays. *)
Lemma Purge_within_cache_witness :
  result (Purge (E := demo.externals) 2 demo.da_small) = Return tt ∧
  purged_oldest demo.cache3 (clients (final (Purge (E := demo.externals) 2 demo.da_small))) 2 ∧
  clients (final (Purge (E := demo.externals) 2 demo.da_small)) !! "n3"
    = Some (fresh_client 3).
Proof.
  destruct (Purge_within_cache (E := demo.externals) demo_contracts demo.da_small 2)
    as (Hres & _ & Hpurged & _).
  - split; by vm_compute.
  - split; [exact Hres|]. split; [exact Hpurged|]. by vm_compute.
Defined.

(** [Purge(0)], [Purge(3)] and [Purge(-1)] on the cache of three sessions. *)
Lemma Purge_edges_witness :
  clients (final (Purge (E := demo.externals) 0 demo.da_small)) = demo.cache3 ∧
  clients (final (Purge (E := demo.externals) 3 demo.da_small)) = ∅ ∧
  result (Purge (E := demo.externals) (-1) demo.da_small) = Panic "slice bounds out of range".
Proof.
  destruct (Purge_edges (E := demo.externals) demo_contracts demo.da_small)
    as (H0 & Hall & Hneg).
  split; [exact H0|]. split; [exact Hall|]. by rewrite (Hneg (-1)).
Defined.

(** A challenge for ["n9"] on the cache of ["n1"]. *)
Lemma RequireAuth_registers_witness :
  clients (final (RequireAuth (E := demo.externals) "n9" 9 demo.da1)) !! "n9"
    = Some (fresh_client 9) ∧
  replay Free (trace (RequireAuth (E := demo.externals) "n9" 9 demo.da1)) = Finished Free.
Proof.
  destruct (RequireAuth_registers (E := demo.externals) "n9" 9 demo.da1
              (unauthorized demo.da1 "n9")) as (_ & Hc & _ & Hlock).
  - by vm_compute.
  - split; [exact Hc|exact Hlock].
Defined.

(** A challenge on the cache of ["n1"], of size 10 and tolerance 2. *)
Lemma RequireAuth_returns_witness :
  result (RequireAuth (E := demo.externals) "n9" 9 demo.da1)
    = Return (unauthorized demo.da1 "n9").
Proof.
  apply (RequireAuth_returns (E := demo.externals) demo_contracts "n9" 9 demo.da1).
  - repeat split; by vm_compute.
  - by vm_compute.
Defined.

(** Six challenges, a check and a served request on the empty cache of size
    2 and tolerance 2. *)
Lemma cache_stays_bounded_witness :
  result (run_calls (E := demo.externals) demo_more.traffic demo.da_empty) = Return tt ∧
  Z.of_nat (size (clients (final (run_calls (E := demo.externals) demo_more.traffic
                                    demo.da_empty)))) ≤ 5.
Proof.
  destruct (cache_stays_bounded (E := demo.externals) demo_contracts demo.da_empty
              demo_more.traffic) as (Hres & _ & Hsize).
  - repeat split; by vm_compute.
  - split; by vm_compute.
  - by vm_compute.
  - split; [exact Hres|exact Hsize].
Defined.

(** The same traffic on a new authenticator. *)
Lemma NewDigestAuthenticator_bounded_witness :
  result (run_calls (E := demo.externals) demo_more.traffic
            (NewDigestAuthenticator "realm" (λ _ _, "s3") "op" demo.headers)) = Return tt.
Proof.
  apply (NewDigestAuthenticator_bounded (E := demo.externals) demo_contracts
           "realm" (λ _ _, "s3") "op" demo.headers demo_more.traffic).
Defined.

(** The challenge for ["n1"] on the empty cache, then alice's response. *)
Lemma challenge_then_response_witness :
  accepts (CheckAuth (E := demo.externals) (demo.req "1") 101
             (final (RequireAuth (E := demo.externals) "n1" 5 demo_more.da_none))) "alice".
Proof.
  apply (challenge_then_response (E := demo.externals) demo_more.da_none "n1" 5
           (unauthorized demo_more.da_none "n1") (demo.req "1") 101 "alice" 1).
  - by vm_compute.
  - apply (valid_response_set_clients (E := demo.externals) demo.da1 ∅).
    apply (demo_valid_response false "1" 1). apply (bool_decide_unpack _). by vm_compute.
Defined.

(** The challenge that panics, on three sessions with size 0 and tolerance
    2, and the check that follows. *)
Lemma panic_leaves_cache_locked_witness :
  result (RequireAuth (E := demo.externals) "n4" 4 demo.da_small)
    = Panic "slice bounds out of range" ∧
  replay Free (trace (RequireAuth (E := demo.externals) "n4" 4 demo.da_small))
    = Finished WriteLocked ∧
  replay WriteLocked (trace (CheckAuth (E := demo.externals) (demo.req "1") 101 demo.da_small))
    = Blocked [].
Proof.
  assert (result (RequireAuth (E := demo.externals) "n4" 4 demo.da_small)
          = Panic "slice bounds out of range") as Hres by (by vm_compute).
  destruct (panic_leaves_cache_locked (E := demo.externals) "n4" 4 demo.da_small _ Hres)
    as (_ & Hlock & Hcheck & _).
  split; [exact Hres|]. split; [exact Hlock|]. apply Hcheck.
Defined.

(** The request of alice that carries a username header of its own. *)
Lemma JustCheck_sets_username_witness :
  Header_Get demo_more.req_spoofing "X-Authenticated-Username" = "root" ∧
  ∃ authinfo r',
    result (JustCheck_handler (E := demo.externals) (L := demo_more.http)
              demo_more.req_spoofing 101 "n9" 102 demo.da1) = Return (Forward authinfo r') ∧
    Header_Get r' "X-Authenticated-Username" = "alice".
Proof.
  split; [reflexivity|].
  assert (∃ authinfo r',
            result (JustCheck_handler (E := demo.externals) (L := demo_more.http)
                      demo_more.req_spoofing 101 "n9" 102 demo.da1)
            = Return (Forward authinfo r')) as (authinfo & r' & Hres).
  { eexists _, _. vm_compute. reflexivity. }
  exists authinfo, r'. split; [exact Hres|].
  destruct (JustCheck_sets_username (E := demo.externals) (L := demo_more.http)
              demo_more.req_spoofing 101 "n9" 102 demo.da1 authinfo r' Hres)
    as (user & _ & Hout & Hhdr & _).
  change AuthUsernameHeader with "X-Authenticated-Username" in Hhdr. rewrite Hhdr.
  assert (result (CheckAuth (E := demo.externals) demo_more.req_spoofing 101 demo.da1)
          = Return ("alice", authinfo)) as Hout'.
  { rewrite Hout. f_equal. f_equal. vm_compute in Hout. by injection Hout. }
  congruence.
Defined.
